(** * s4cmb time-ordered data: pointing corrector, pixel indexer, projectors, map solver

    A shallow embedding of [src/s4cmb/tod.py] and [src/time_ordered_data/tod.py].

    - numpy [float64] values are Rocq's primitive binary64 floats, so NaN,
      infinities, signed zeros and rounding are those of the program;
    - numpy integer arrays are lists of [Z], with the wrap-around of the
      element type written out where a value is stored;
    - Python exceptions are the [Raise] outcomes of a small error monad, and
      methods that update [self] thread the object explicitly. *)

From Stdlib Require Import ZArith Floats Uint63 String Ascii Bool Lia.
From stdpp Require Import base list strings.
From Equations Require Import Equations.

Local Open Scope Z_scope.

(** ** Exceptions and the error monad *)

Inductive exn : Set :=
| AssertionError | ValueError | IndexError | TypeError
| AttributeError | FloatingPointError | NameError | SystemExit.

Inductive result (A : Type) : Type :=
| Ok (a : A)
| Raise (e : exn).
Arguments Ok {A} a.
Arguments Raise {A} e.

#[export] Instance result_ret : MRet result := fun _ a => Ok a.
#[export] Instance result_bind : MBind result := fun _ _ k r =>
  match r with Ok a => k a | Raise e => Raise e end.

Definition py_assert (b : bool) : result unit :=
  if b then Ok tt else Raise AssertionError.

(** ** float64 scalars *)

Module F.
Local Open Scope float_scope.

(** [np.pi] and [np.finfo(np.float32).eps] as float64 values. *)
Definition pi : float := 0x1.921fb54442d18p+1.
Definition eps32 : float := 0x1p-23.

(** A float that is zero of either sign. *)
Definition zerob (x : float) : bool := (x =? 0).

(** Neither NaN nor infinite. *)
Definition finiteb (x : float) : bool := is_finite x.


(** numpy's [!=]. *)
Definition neb (x y : float) : bool := negb (x =? y).

(** The IEEE "invalid operation" flag of an arithmetic result: a NaN made
    from operands that are not NaN.  (Quiet NaNs propagate silently.) *)
Definition invalid_arith (x y r : float) : bool :=
  is_nan r && negb (is_nan x) && negb (is_nan y).

(** The flag of an ordered comparison ([<], [>]): an operand is NaN. *)
Definition invalid_cmp (x y : float) : bool := is_nan x || is_nan y.
End F.

(** [np.seterr(invalid=...)]: what numpy does when an operation raises the
    IEEE invalid flag.  The default is to warn and carry on. *)
Inductive seterr_invalid : Set := InvalidWarn | InvalidRaise.

(** The C library's trigonometric functions, which numpy calls. *)
Class Libm : Type := {
  sin : float -> float;
  cos : float -> float;
  tan : float -> float
}.

(** ** numpy arrays of one dimension *)

Section Arrays.
Context {A B : Type}.

(** Broadcasting of two one-dimensional operands: equal lengths pair up,
    a length-one operand is repeated, anything else is a [ValueError]. *)
Definition broadcast2 (a : list A) (b : list B) : result (list (A * B)) :=
  if (length a =? length b)%nat then Ok (zip a b)
  else match a, b with
       | [x], _ => Ok ((fun y => (x, y)) <$> b)
       | _, [y] => Ok ((fun x => (x, y)) <$> a)
       | _, _ => Raise ValueError
       end.

(** [a[mask]] for a boolean mask of the array's own length. *)
Fixpoint np_mask_get (mask : list bool) (a : list A) : list A :=
  match mask, a with
  | true :: mk, x :: a' => x :: np_mask_get mk a'
  | false :: mk, _ :: a' => np_mask_get mk a'
  | _, _ => []
  end.

(** [a[mask] = vals]: the selected cells take the values in order. *)
Fixpoint np_mask_set (a : list A) (mask : list bool) (vals : list A) : list A :=
  match a, mask with
  | x :: a', true :: mk =>
      match vals with
      | v :: vs => v :: np_mask_set a' mk vs
      | [] => x :: np_mask_set a' mk []
      end
  | x :: a', false :: mk => x :: np_mask_set a' mk vals
  | _, _ => a
  end.

(** [a[mask] = v] for a scalar [v]. *)
Definition np_mask_fill (a : list A) (mask : list bool) (v : A) : list A :=
  zip_with (fun x (m : bool) => if m then v else x) a mask.
End Arrays.

(** A boolean index must have the length of the array it indexes. *)
Definition check_mask {A} (mask : list bool) (a : list A) : result unit :=
  if (length mask =? length a)%nat then Ok tt else Raise IndexError.

Section FloatArrays.
Variable st : seterr_invalid.

Definition fp_check {A} (flags : list bool) (r : A) : result A :=
  match st with
  | InvalidWarn => Ok r
  | InvalidRaise => if existsb id flags then Raise FloatingPointError else Ok r
  end.

(** A binary arithmetic ufunc on two arrays. *)
Definition ufunc2 (f : float -> float -> float) (a b : list float)
  : result (list float) :=
  ab ← broadcast2 a b;
  fp_check ((fun p => F.invalid_arith (fst p) (snd p) (f (fst p) (snd p))) <$> ab)
           ((fun p => f (fst p) (snd p)) <$> ab).

(** The same with a scalar on the left or on the right. *)
Definition ufunc_sl (f : float -> float -> float) (s : float) (a : list float)
  : result (list float) :=
  fp_check ((fun x => F.invalid_arith s x (f s x)) <$> a) (f s <$> a).
Definition ufunc_sr (f : float -> float -> float) (a : list float) (s : float)
  : result (list float) :=
  fp_check ((fun x => F.invalid_arith x s (f x s)) <$> a) ((fun x => f x s) <$> a).

(** Ordered comparison of an array with a scalar. *)
Definition np_lt_s (a : list float) (s : float) : result (list bool) :=
  fp_check ((fun x => F.invalid_cmp x s) <$> a) ((fun x => PrimFloat.ltb x s) <$> a).
Definition np_gt_s (a : list float) (s : float) : result (list bool) :=
  fp_check ((fun x => F.invalid_cmp x s) <$> a) ((fun x => PrimFloat.ltb s x) <$> a).
End FloatArrays.

(** [np.zeros(n)], [np.abs], [np.isnan], unary minus: never signal. *)
Definition np_zeros (n : nat) : list float := replicate n 0%float.
Definition np_abs (a : list float) : list float := PrimFloat.abs <$> a.
Definition np_isnan (a : list float) : list bool := PrimFloat.is_nan <$> a.
Definition np_neg (a : list float) : list float := PrimFloat.opp <$> a.
Definition np_ne_s (a : list float) (s : float) : list bool :=
  (fun x => F.neb x s) <$> a.

(** ** Integer arrays *)

(** Reduction of an integer to numpy's [int32], and to [int64]. *)
Definition wrap32 (z : Z) : Z := (z + 2 ^ 31) mod 2 ^ 32 - 2 ^ 31.
Definition wrap64 (z : Z) : Z := (z + 2 ^ 63) mod 2 ^ 64 - 2 ^ 63.

(** The float64 nearest to an integer, as numpy converts an integer operand
    of a float operation. *)
Definition float_of_Z (z : Z) : float :=
  if z <? 0 then PrimFloat.opp (PrimFloat.of_uint63 (Uint63.of_Z (- z)))
  else PrimFloat.of_uint63 (Uint63.of_Z z).

(** An array attribute of an object: float64 or int32 cells. *)
Inductive ndarray : Type :=
| NdF (a : list float)
| NdI (a : list Z).

Definition nd_len (a : ndarray) : nat :=
  match a with NdF l => length l | NdI l => length l end.

(** [a += b] on arrays.  The result has the shape and the element type of
    [a]: [b] must broadcast to it, and a float64 [b] cannot be added into an
    int32 [a] (numpy refuses the cast under its same-kind rule). *)
Definition inplace_operand {X} (n : nat) (b : list X) : result (list X) :=
  if (length b =? n)%nat then Ok b
  else match b with
       | [y] => Ok (replicate n y)
       | _ => Raise ValueError
       end.

Definition np_iadd (st : seterr_invalid) (a b : ndarray) : result ndarray :=
  match a, b with
  | NdF x, NdF y =>
      y' ← inplace_operand (length x) y;
      r ← ufunc2 st PrimFloat.add x y';
      Ok (NdF r)
  | NdF x, NdI y =>
      y' ← inplace_operand (length x) y;
      r ← ufunc2 st PrimFloat.add x (float_of_Z <$> y');
      Ok (NdF r)
  | NdI x, NdI y =>
      y' ← inplace_operand (length x) y;
      Ok (NdI (zip_with (fun u v => wrap32 (u + v)) x y'))
  | NdI _, NdF _ => Raise TypeError
  end.

(** ** Strings *)

(** [s.split(' ')]: the pieces between single spaces, empty pieces kept. *)
Fixpoint split_on_space (s : string) : list string :=
  match s with
  | EmptyString => [EmptyString]
  | String c s' =>
      if Ascii.eqb c " "%char then EmptyString :: split_on_space s'
      else match split_on_space s' with
           | w :: ws => String c w :: ws
           | [] => [String c EmptyString]
           end
  end.

Definition is_space (c : ascii) : bool :=
  let n := nat_of_ascii c in
  (n =? 32)%nat || ((9 <=? n)%nat && (n <=? 13)%nat).

(** [s.split()]: the runs of characters between white space. *)
Fixpoint split_ws_aux (cur : option string) (s : string) : list string :=
  match s with
  | EmptyString => match cur with Some w => [w] | None => [] end
  | String c s' =>
      if is_space c
      then match cur with
           | Some w => w :: split_ws_aux None s'
           | None => split_ws_aux None s'
           end
      else split_ws_aux
             (Some (match cur with
                    | Some w => (w ++ String c EmptyString)%string
                    | None => String c EmptyString
                    end)) s'
  end.
Definition split_ws (s : string) : list string := split_ws_aux None s.

(** [l.index(x)] when [x] is in [l]. *)
Fixpoint index_of (x : string) (l : list string) : option nat :=
  match l with
  | [] => None
  | y :: l' => if String.eqb x y then Some 0%nat else S <$> index_of x l'
  end.

(** ** [class OutputSkyMap]: the sky-map accumulator and its solver *)

(** The seven accumulator arrays are created by [np.zeros] and hold float64;
    [nhit] is created with [dtype=np.int32], and the docstring of [coadd]
    replaces it by a float64 array, so it is kept with its element type.
    [idet] is the attribute [get_QU] stores; it does not exist before. *)
Record OutputSkyMap : Type := {
  projection : string;
  obspix : option (list Z);
  npixsky : Z;
  nside : option Z;
  pixel_size : option float;
  d : list float;
  dc : list float;
  ds : list float;
  w : list float;
  cc : list float;
  cs : list float;
  ss : list float;
  nhit : ndarray;
  idet : option (list float)
}.

(** [initialise_sky_maps]: all arrays zero, over [npixsky] pixels.
    [np.zeros] refuses a negative size. *)
Definition initialise_sky_maps (projection : string) (obspix : option (list Z))
  (npixsky : Z) (nside : option Z) (pixel_size : option float)
  : result OutputSkyMap :=
  if npixsky <? 0 then Raise ValueError
  else
    let n := Z.to_nat npixsky in
    Ok {| projection := projection; obspix := obspix; npixsky := npixsky;
          nside := nside; pixel_size := pixel_size;
          d := np_zeros n; dc := np_zeros n; ds := np_zeros n;
          w := np_zeros n; cc := np_zeros n; cs := np_zeros n; ss := np_zeros n;
          nhit := NdI (replicate n 0); idet := None |}.

(** [OutputSkyMap.__init__].  [nside2resol] stands for healpy's
    [hp.nside2resol(nside, arcmin=True)].  With a projection that is neither
    of the two names, [npixsky] stays as given, and [np.zeros(None)] is a
    [TypeError]. *)
Definition OutputSkyMap_init (nside2resol : Z -> float)
  (projection : string) (obspix : option (list Z)) (npixsky : option Z)
  (nside : option Z) (pixel_size : option float) : result OutputSkyMap :=
  if String.eqb projection "healpix" then
    match obspix, nside with
    | Some pix, Some ns =>
        initialise_sky_maps projection obspix (Z.of_nat (length pix))
          nside (Some (nside2resol ns))
    | _, _ => Raise AssertionError
    end
  else if String.eqb projection "flat" then
    match npixsky, pixel_size with
    | Some n, Some _ => initialise_sky_maps projection obspix n nside pixel_size
    | _, _ => Raise AssertionError
    end
  else
    match npixsky with
    | Some n => initialise_sky_maps projection obspix n nside pixel_size
    | None => Raise TypeError
    end.

(** [get_I]: solve [w * I = d]. *)
Definition get_I (st : seterr_invalid) (self : OutputSkyMap)
  : result (list float) :=
  hit ← np_gt_s st (w self) 0%float;
  let Imap := np_zeros (length (d self)) in
  _ ← check_mask hit (d self);
  q ← ufunc2 st PrimFloat.div (np_mask_get hit (d self)) (np_mask_get hit (w self));
  Ok (np_mask_set Imap hit q).

(** The inverse determinant that [get_QU] computes and stores.  The [try]
    around the comparison with the threshold catches the
    [FloatingPointError] that numpy raises, when it is set to raise, for a
    NaN operand; the handler starts from [isnan] and compares the rest. *)
Definition get_QU_idet (st : seterr_invalid) (self : OutputSkyMap)
  : result (list float) :=
  ccss ← ufunc2 st PrimFloat.mul (cc self) (ss self);
  cscs ← ufunc2 st PrimFloat.mul (cs self) (cs self);
  testcc ← ufunc2 st PrimFloat.sub ccss cscs;
  let idet := np_zeros (length testcc) in
  let inonzero := np_ne_s testcc 0%float in
  inv ← ufunc_sl st PrimFloat.div 1%float (np_mask_get inonzero testcc);
  let idet := np_mask_set idet inonzero inv in
  let thresh := F.eps32 in
  izero ← match np_lt_s st (np_abs testcc) thresh with
           | Raise FloatingPointError =>
               let inan := np_isnan testcc in
               let notnan := negb <$> inan in
               rest ← np_lt_s st (np_abs (np_mask_get notnan testcc)) thresh;
               Ok (np_mask_set inan notnan rest)
           | r => r
           end;
  Ok (np_mask_fill idet izero 0%float).

(** [get_QU]: solve the 2x2 system per pixel.  The object is returned with
    it: [self.idet] is assigned before [Q] and [U] are computed, so it stays
    assigned when one of those operations raises. *)
Definition get_QU (st : seterr_invalid) (self : OutputSkyMap)
  : OutputSkyMap * result (list float * list float) :=
  match get_QU_idet st self with
  | Raise e => (self, Raise e)
  | Ok idet =>
      let self' :=
        {| projection := projection self; obspix := obspix self;
           npixsky := npixsky self; nside := nside self;
           pixel_size := pixel_size self;
           d := d self; dc := dc self; ds := ds self; w := w self;
           cc := cc self; cs := cs self; ss := ss self; nhit := nhit self;
           idet := Some idet |} in
      (self',
       ssdc ← ufunc2 st PrimFloat.mul (ss self) (dc self);
       csds ← ufunc2 st PrimFloat.mul (cs self) (ds self);
       nq ← ufunc2 st PrimFloat.sub ssdc csds;
       Q ← ufunc2 st PrimFloat.mul idet nq;
       mcsdc ← ufunc2 st PrimFloat.mul (np_neg (cs self)) (dc self);
       ccds ← ufunc2 st PrimFloat.mul (cc self) (ds self);
       nu ← ufunc2 st PrimFloat.add mcsdc ccds;
       U ← ufunc2 st PrimFloat.mul idet nu;
       Ok (Q, U))
  end.

(** [get_IQU]: intensity, then polarisation.  When [get_I] raises, [get_QU]
    is not reached and the object is untouched. *)
Definition get_IQU (st : seterr_invalid) (self : OutputSkyMap)
  : OutputSkyMap * result (list float * list float * list float) :=
  match get_I st self with
  | Raise e => (self, Raise e)
  | Ok Imap =>
      let '(self', r) := get_QU st self in
      (self', '(Q, U) ← r; Ok (Imap, Q, U))
  end.

(** *** [coadd] *)

(** [np.all(a == b)] on two [obspix] attributes.  Each is [None] or an
    integer array.  Two arrays are compared cell by cell after broadcasting,
    so a length-one array is repeated against the other, and [np.all] of an
    empty comparison is [True]; arrays that do not broadcast compare as
    [False].  [None] against an array compares every cell with [None]. *)
Definition obspix_all_eq (a b : option (list Z)) : bool :=
  match a, b with
  | None, None => true
  | Some x, Some y =>
      match broadcast2 x y with
      | Ok xy => forallb (fun p => fst p =? snd p) xy
      | Raise _ => false
      end
  | Some x, None | None, Some x => forallb (fun _ => false) x
  end.

(** [getattr(obj, k)] for the names of the accumulator arrays.  The docstring
    asks for names of vectors of both objects; any other name ends the call
    here with the error Python gives for a name that is no attribute. *)
Definition getattr (obj : OutputSkyMap) (k : string) : result ndarray :=
  if String.eqb k "d" then Ok (NdF (d obj))
  else if String.eqb k "dc" then Ok (NdF (dc obj))
  else if String.eqb k "ds" then Ok (NdF (ds obj))
  else if String.eqb k "w" then Ok (NdF (w obj))
  else if String.eqb k "cc" then Ok (NdF (cc obj))
  else if String.eqb k "cs" then Ok (NdF (cs obj))
  else if String.eqb k "ss" then Ok (NdF (ss obj))
  else if String.eqb k "nhit" then Ok (nhit obj)
  else Raise AttributeError.

(** The array named [k] after [a += b] gave [r]: the cells of the object's
    own array are overwritten. *)
Definition store (obj : OutputSkyMap) (k : string) (r : ndarray) : OutputSkyMap :=
  let upd (name : string) (old : list float) : list float :=
    if String.eqb k name then match r with NdF l => l | NdI _ => old end else old in
  {| projection := projection obj; obspix := obspix obj; npixsky := npixsky obj;
     nside := nside obj; pixel_size := pixel_size obj;
     d := upd "d"%string (d obj); dc := upd "dc"%string (dc obj);
     ds := upd "ds"%string (ds obj); w := upd "w"%string (w obj);
     cc := upd "cc"%string (cc obj); cs := upd "cs"%string (cs obj);
     ss := upd "ss"%string (ss obj);
     nhit := if String.eqb k "nhit" then r else nhit obj;
     idet := idet obj |}.

(** The second object of [coadd]: another accumulator, or the very object
    the method is called on (as in [m.coadd(m)]), whose arrays are then read
    in their current, already updated, state. *)
Inductive other_ref : Type :=
| Itself
| Another (m : OutputSkyMap).

Definition deref (other : other_ref) (self : OutputSkyMap) : OutputSkyMap :=
  match other with Itself => self | Another m => m end.

(** The loop over the names: each array is updated in place, so the updates
    made before a failing name stay. *)
Fixpoint coadd_loop (st : seterr_invalid) (other : other_ref) (ks : list string)
  (self : OutputSkyMap) : OutputSkyMap * result unit :=
  match ks with
  | [] => (self, Ok tt)
  | k :: ks' =>
      match (a ← getattr self k;
             b ← getattr (deref other self) k;
             np_iadd st a b) with
      | Raise e => (self, Raise e)
      | Ok r => coadd_loop st other ks' (store self k r)
      end
  end.

Definition default_to_coadd : string := "d dc ds w cc cs ss nhit"%string.

(** [coadd(self, other, to_coadd)]. *)
Definition coadd (st : seterr_invalid) (self : OutputSkyMap) (other : other_ref)
  (to_coadd : string) : OutputSkyMap * result unit :=
  if obspix_all_eq (obspix self) (obspix (deref other self))
  then coadd_loop st other (split_on_space to_coadd) self
  else (self, Raise AssertionError).

(** ** The pixel indexer: [build_pointing_matrix] *)

(** The geometry the indexer gets from elsewhere: [radec2thetaphi] and
    [LamCyl] of the package, healpy's equatorial-to-galactic rotator and
    [hp.ang2pix].  All act sample by sample. *)
Class Geometry : Type := {
  radec2thetaphi : float -> float -> float * float;
  rotator_C_G : float -> float -> float * float;
  ang2pix : Z -> float -> float -> Z;
  LamCyl : float -> float -> float * float
}.

(** [a.searchsorted(v)] for one key: numpy's binary search for the leftmost
    insertion point, between [lo] and [hi]. *)
Equations? bisect_left (a : list Z) (key : Z) (lo hi : nat) : nat
  by wf (hi - lo)%nat lt :=
bisect_left a key lo hi with lt_dec lo hi := {
  | right _ => lo
  | left _ with Z_lt_dec (nth (lo + Nat.div2 (hi - lo)) a 0) key := {
      | left _ => bisect_left a key (S (lo + Nat.div2 (hi - lo))) hi
      | right _ => bisect_left a key lo (lo + Nat.div2 (hi - lo)) } }.
Proof.
  all: pose proof (Nat.lt_div2 (hi - lo)) as Hd;
    assert (Hp : (0 < hi - lo)%nat) by lia; specialize (Hd Hp);
    remember (Nat.div2 (hi - lo)) as k; clear Heqk; lia.
Qed.

Definition searchsorted (a : list Z) (v : list Z) : list Z :=
  (fun key => Z.of_nat (bisect_left a key 0 (length a))) <$> v.

(** [a[idx]] for an integer index array: Python's negative indices count
    from the end, anything out of range is an [IndexError]. *)
Definition np_item {A} (a : list A) (i : Z) : result A :=
  let n := Z.of_nat (length a) in
  let j := if i <? 0 then i + n else i in
  if (0 <=? j) && (j <? n)
  then match a !! Z.to_nat j with Some x => Ok x | None => Raise IndexError end
  else Raise IndexError.

Fixpoint np_take {A} (a : list A) (idx : list Z) : result (list A) :=
  match idx with
  | [] => Ok []
  | i :: idx' => x ← np_item a i; xs ← np_take a idx'; Ok (x :: xs)
  end.

(** [np.int_(x)]: the C conversion of a double to a 64-bit integer, which
    truncates toward zero.  For NaN, an infinity or a value out of range the
    conversion instruction of x86-64 gives the least integer. *)
Definition int64_min : Z := - 2 ^ 63.
Definition np_int_ (x : float) : Z :=
  match Prim2SF x with
  | S754_zero _ => 0
  | S754_finite s m e =>
      let v := if 0 <=? e then Z.pos m * 2 ^ e else Z.pos m / 2 ^ (- e) in
      let z := if s then - v else v in
      if (int64_min <=? z) && (z <? 2 ^ 63) then z else int64_min
  | _ => int64_min
  end.

Section Indexer.
Context `{Geometry}.

(** The healpix branch, on the global indices. *)
Definition local_healpix (obspix : list Z) (cut_outliers : bool)
  (index_global : list Z) : result (list Z) :=
  let npixsky := Z.of_nat (length obspix) in
  let index_local := searchsorted obspix index_global in
  let mask1 := (fun i => i <? npixsky) <$> index_local in
  (* [loc] is the array [mask1] itself, written through its own mask *)
  found ← np_take obspix (np_mask_get mask1 index_local);
  let hit := zip_with Z.eqb found (np_mask_get mask1 index_global) in
  let loc := np_mask_set mask1 mask1 hit in
  let outside_pixels := negb <$> loc in
  if existsb id outside_pixels && negb cut_outliers
  then Raise ValueError
  else Ok (np_mask_fill index_local outside_pixels (-1)).

(** The flat branch, on the projected coordinates. *)
Definition local_flat (xmin ymin pixel_size : float) (npix_per_row : Z)
  (xy : list (float * float)) : list Z :=
  let xminmap := (xmin - pixel_size / 2)%float in
  let yminmap := (ymin - pixel_size / 2)%float in
  let ix := (fun p => np_int_ ((fst p - xminmap) / pixel_size)%float) <$> xy in
  let iy := (fun p => np_int_ ((snd p - yminmap) / pixel_size)%float) <$> xy in
  let index_local := zip_with (fun a b => wrap64 (wrap64 (a * npix_per_row) + b)) ix iy in
  let outside :=
    zip_with (fun a b => (a <? 0) || (npix_per_row <=? a) || (b <? 0) || (npix_per_row <=? b))
      ix iy in
  np_mask_fill index_local outside (-1).

(** [build_pointing_matrix].  The optional arguments are [None] when left
    out; the flat branch needs its four. *)
Definition build_pointing_matrix (ra dec : list float) (nside : Z)
  (projection : string) (obspix : option (list Z)) (ext_map_gal : bool)
  (xmin ymin pixel_size : option float) (npix_per_row : option Z)
  (cut_outliers : bool) : result (list Z * option (list Z)) :=
  radec ← broadcast2 ra dec;
  let thetaphi := (fun p => radec2thetaphi (fst p) (snd p)) <$> radec in
  let thetaphi :=
    if ext_map_gal then (fun p => rotator_C_G (fst p) (snd p)) <$> thetaphi
    else thetaphi in
  let index_global := (fun p => ang2pix nside (fst p) (snd p)) <$> thetaphi in
  if String.eqb projection "healpix" && bool_decide (is_Some obspix) then
    match obspix with
    | Some pix =>
        index_local ← local_healpix pix cut_outliers index_global;
        Ok (index_global, Some index_local)
    | None => Ok (index_global, None)
    end
  else if String.eqb projection "flat" then
    match xmin, ymin, pixel_size, npix_per_row with
    | Some x0, Some y0, Some ps, Some n =>
        let xy := (fun p => LamCyl (fst p) (snd p)) <$> radec in
        Ok (index_global, Some (local_flat x0 y0 ps n xy))
    | _, _, _, _ => Raise TypeError
    end
  else Ok (index_global, None).

End Indexer.

(** ** The accumulation kernel *)

Section Kernel.
Context `{Libm}.

(** Modelled from the spec: the update [a(ipix) = a(ipix) + v] of one map
    of the accumulator by the kernel of [tod_f]; an index that is no cell of
    the map updates nothing. *)
Definition acc_add (a : list float) (ipix : Z) (v : float) : list float :=
  if 0 <=? ipix then alter (fun x => (x + v)%float) (Z.to_nat ipix) a else a.

(** Modelled from the spec: the hit counter of pixel [ipix] goes up by one
    in the kernel of [tod_f]. *)
Definition hit_incr (a : ndarray) (ipix : Z) : ndarray :=
  if 0 <=? ipix then
    match a with
    | NdI l => NdI (alter (fun n => wrap32 (n + 1)) (Z.to_nat ipix) l)
    | NdF l => NdF (alter (fun x => (x + 1)%float) (Z.to_nat ipix) l)
    end
  else a.

(** Modelled from the spec: the contribution of one unmasked sample of one
    pair to pixel [ipix], which the Fortran routine of [tod_f] (not part of
    the sources at hand) makes.  The sum timestream enters the intensity
    right-hand side [d] and the weight [w] with the pair's sum weight; the
    difference timestream, split by the cosine and sine of twice the
    polarisation angle, enters [dc] and [ds], and [cc], [cs], [ss] take the
    products of that cosine and sine, all with the difference weight; the hit
    counter goes up by one.  Sum and difference are the half-sum and the
    half-difference of the pair's two timestreams, the normalisation under
    which the round trip of the spec gives back the input map. *)
Definition kernel_sample (maps : OutputSkyMap) (ipix : Z)
  (ang top bottom sw dw : float) : OutputSkyMap :=
  let tsum := (0.5 * (top + bottom))%float in
  let tdiff := (0.5 * (top - bottom))%float in
  let c := cos (2 * ang)%float in
  let s := sin (2 * ang)%float in
  {| projection := projection maps; obspix := obspix maps;
     npixsky := npixsky maps; nside := nside maps; pixel_size := pixel_size maps;
     d := acc_add (d maps) ipix (sw * tsum)%float;
     dc := acc_add (dc maps) ipix (dw * tdiff * c)%float;
     ds := acc_add (ds maps) ipix (dw * tdiff * s)%float;
     w := acc_add (w maps) ipix sw;
     cc := acc_add (cc maps) ipix (dw * c * c)%float;
     cs := acc_add (cs maps) ipix (dw * c * s)%float;
     ss := acc_add (ss maps) ipix (dw * s * s)%float;
     nhit := hit_incr (nhit maps) ipix;
     idet := idet maps |}.

(** Modelled from the spec: sample [idx] of the flattened pair arrays.  A
    sample is masked when its mask value is zero or its pixel index is the
    sentinel -1, and a masked sample contributes nothing.  The detectors of
    pair [p] are rows [2 p] and [2 p + 1] of the timestream array. *)
Definition kernel_step (point_matrix : list Z) (pol_angs waferts : list float)
  (diff_weight sum_weight : list Z) (nt : nat) (wafermask_pixel : list Z)
  (maps : OutputSkyMap) (idx : nat) : OutputSkyMap :=
  let p := (idx / nt)%nat in
  let j := (idx mod nt)%nat in
  match wafermask_pixel !! idx, point_matrix !! idx, pol_angs !! idx,
        waferts !! (2 * p * nt + j)%nat, waferts !! ((2 * p + 1) * nt + j)%nat,
        sum_weight !! p, diff_weight !! p with
  | Some mask, Some ipix, Some ang, Some top, Some bottom, Some sw, Some dw =>
      if (mask =? 0) || (ipix =? -1) then maps
      else kernel_sample maps ipix ang top bottom (float_of_Z sw) (float_of_Z dw)
  | _, _, _, _, _, _, _ => maps
  end.

(** Modelled from the spec: [tod_f.tod2map_alldet_f], over every sample of
    every pair.  The last argument is the number of pixels of the maps, which
    their own lengths repeat. *)
Definition tod2map_alldet_f (maps : OutputSkyMap) (point_matrix : list Z)
  (pol_angs waferts : list float) (diff_weight sum_weight : list Z) (nt : nat)
  (wafermask_pixel : list Z) (npixfp : nat) (npixmap : Z) : OutputSkyMap :=
  foldl (kernel_step point_matrix pol_angs waferts diff_weight sum_weight nt
           wafermask_pixel)
    maps (seq 0 (npixfp * nt)).

End Kernel.

(** ** [class TimeOrderedDataPairDiff] *)

(** A unary ufunc of the C library: NaN out of a number signals. *)
Definition ufunc1 (st : seterr_invalid) (f : float -> float) (a : list float)
  : result (list float) :=
  fp_check st ((fun x => PrimFloat.is_nan (f x) && negb (PrimFloat.is_nan x)) <$> a)
    (f <$> a).

(** Python's [int(x)] of a float: truncation, and an error for NaN or an
    infinity. *)
Definition py_int (x : float) : result Z :=
  match Prim2SF x with
  | S754_zero _ => Ok 0
  | S754_finite s m e =>
      let v := if 0 <=? e then Z.pos m * 2 ^ e else Z.pos m / 2 ^ (- e) in
      Ok (if s then - v else v)
  | _ => Raise ValueError
  end.

(** [d2r], the module constant [np.pi / 180.0]. *)
Definition d2r : float := (F.pi / 180)%float.

Module PairDiff.

(** The input sky, as far as the projectors read it. *)
Record HealpixFitsMap : Type := {
  map_nside : Z;
  map_I : list float;
  map_Q : list float;
  map_U : list float;
  do_pol : bool;
  ext_map_gal : bool
}.

(** The attributes of the object that [map2tod] and [tod2map] use.
    [offset_detector] is the method of the boresight pointing object: right
    ascension, declination and parallactic angle of a detector at every
    sample, from its two focal-plane offsets.  [point_matrix] has int32
    cells; the weights and the mask are integer arrays. *)
Record TimeOrderedDataPairDiff : Type := {
  projection : string;
  width : float;
  nsamples : nat;
  xpos : list float;
  ypos : list float;
  intrinsic_polangle : list float;
  hwpangle : list float;
  pol_angs : list (list float);
  point_matrix : list (list Z);
  wafermask_pixel : list (list Z);
  obspix : list Z;
  npixsky : Z;
  pixel_size : float;
  sum_weight : list Z;
  diff_weight : list Z;
  sky : HealpixFitsMap;
  offset_detector : float -> float -> list float * list float * list float
}.

Definition set_point_matrix (self : TimeOrderedDataPairDiff) (pm : list (list Z))
  : TimeOrderedDataPairDiff :=
  {| projection := projection self; width := width self; nsamples := nsamples self;
     xpos := xpos self; ypos := ypos self;
     intrinsic_polangle := intrinsic_polangle self; hwpangle := hwpangle self;
     pol_angs := pol_angs self; point_matrix := pm;
     wafermask_pixel := wafermask_pixel self; obspix := obspix self;
     npixsky := npixsky self; pixel_size := pixel_size self;
     sum_weight := sum_weight self; diff_weight := diff_weight self;
     sky := sky self; offset_detector := offset_detector self |}.

Definition set_pol_angs (self : TimeOrderedDataPairDiff) (pa : list (list float))
  : TimeOrderedDataPairDiff :=
  {| projection := projection self; width := width self; nsamples := nsamples self;
     xpos := xpos self; ypos := ypos self;
     intrinsic_polangle := intrinsic_polangle self; hwpangle := hwpangle self;
     pol_angs := pa; point_matrix := point_matrix self;
     wafermask_pixel := wafermask_pixel self; obspix := obspix self;
     npixsky := npixsky self; pixel_size := pixel_size self;
     sum_weight := sum_weight self; diff_weight := diff_weight self;
     sky := sky self; offset_detector := offset_detector self |}.

(** [m[k] = vals] on a matrix with rows of [n] cells: the row must exist and
    the values must broadcast to it. *)
Definition assign_row {X} (n : nat) (m : list (list X)) (k : nat) (vals : list X)
  : result (list (list X)) :=
  if (k <? length m)%nat
  then row ← inplace_operand n vals; Ok (<[k := row]> m)
  else Raise IndexError.

Section Projectors.
Context `{Libm} `{Geometry}.
Variable st : seterr_invalid.

(** [compute_simpolangle].  The systematics branch prints and leaves the
    interpreter. *)
Definition compute_simpolangle (self : TimeOrderedDataPairDiff) (ch : nat)
  (parallactic_angle : list float) (do_demodulation polangle_err : bool)
  : result (list float) :=
  if negb polangle_err then
    p ← np_item (intrinsic_polangle self) (Z.of_nat ch);
    let ang_pix := ((90 - p) * d2r)%float in
    twohwp ← ufunc_sl st PrimFloat.mul 2%float (hwpangle self);
    if negb do_demodulation then
      a ← ufunc_sr st PrimFloat.add parallactic_angle ang_pix;
      ufunc2 st PrimFloat.add a twohwp
    else
      a ← ufunc_sr st PrimFloat.sub parallactic_angle ang_pix;
      ufunc2 st PrimFloat.sub a twohwp
  else Raise SystemExit.

(** The part of [map2tod] before the first assignment to the object: the
    detector's offsets, its pointing and its pixels. *)
Definition map2tod_pointing (self : TimeOrderedDataPairDiff) (ch : nat)
  : result (list Z * option (list Z) * list float) :=
  azd ← np_item (xpos self) (Z.of_nat ch);
  eld ← np_item (ypos self) (Z.of_nat ch);
  let '(ra, dec, pa) := offset_detector self azd eld in
  ix ←
    (if String.eqb (projection self) "flat" then
       let half := (- width self / 2 * F.pi / 180)%float in
       n ← py_int (PrimFloat.sqrt (float_of_Z (npixsky self)));
       build_pointing_matrix ra dec (map_nside (sky self)) (projection self)
         None false (Some half) (Some half) (Some (pixel_size self)) (Some n) true
     else if String.eqb (projection self) "healpix" then
       build_pointing_matrix ra dec (map_nside (sky self)) (projection self)
         (Some (obspix self)) (ext_map_gal (sky self)) None None None None true
     else Raise NameError);
  Ok (fst ix, snd ix, pa).

(** The timestream [map2tod] returns. *)
Definition map2tod_signal (m : HealpixFitsMap) (index_global : list Z)
  (pol_ang : option (list float)) : result (list float) :=
  let norm := 1%float in
  match pol_ang with
  | Some ang =>
      i ← np_take (map_I m) index_global;
      q ← np_take (map_Q m) index_global;
      a2 ← ufunc_sl st PrimFloat.mul 2%float ang;
      c ← ufunc1 st cos a2;
      qc ← ufunc2 st PrimFloat.mul q c;
      iq ← ufunc2 st PrimFloat.add i qc;
      u ← np_take (map_U m) index_global;
      a2' ← ufunc_sl st PrimFloat.mul 2%float ang;
      s ← ufunc1 st sin a2';
      us ← ufunc2 st PrimFloat.mul u s;
      iqu ← ufunc2 st PrimFloat.add iq us;
      ufunc_sr st PrimFloat.mul iqu norm
  | None =>
      i ← np_take (map_I m) index_global;
      ufunc_sl st PrimFloat.mul norm i
  end.

(** [map2tod(ch)]: the object after the call, and the timestream or the
    exception.  The local indices are stored in the int32 cells of
    [point_matrix], and only for an even channel; the angles are computed,
    and stored for an even channel, only when the sky has polarisation. *)
Definition map2tod (self : TimeOrderedDataPairDiff) (ch : nat)
  : TimeOrderedDataPairDiff * result (list float) :=
  match map2tod_pointing self ch with
  | Raise e => (self, Raise e)
  | Ok (index_global, index_local, pa) =>
      match (if Nat.even ch then
               match index_local with
               | Some il =>
                   pm ← assign_row (nsamples self) (point_matrix self)
                          (Nat.div2 ch) (wrap32 <$> il);
                   Ok (set_point_matrix self pm)
               | None => Raise TypeError
               end
             else Ok self) with
      | Raise e => (self, Raise e)
      | Ok self1 =>
          if do_pol (sky self1) then
            match compute_simpolangle self1 ch pa false false with
            | Raise e => (self1, Raise e)
            | Ok pol_ang =>
                match (if Nat.even ch then
                         pa' ← assign_row (nsamples self1) (pol_angs self1)
                                 (Nat.div2 ch) pol_ang;
                         Ok (set_pol_angs self1 pa')
                       else Ok self1) with
                | Raise e => (self1, Raise e)
                | Ok self2 =>
                    (self2, map2tod_signal (sky self2) index_global (Some pol_ang))
                end
            end
          else (self1, map2tod_signal (sky self1) index_global None)
      end
  end.

(** [tod2map(waferts, output_maps)]: the accumulator after the call.
    [npixfp] is the true quotient of the number of rows by two, so the size
    assertions fail for an odd number of rows. *)
Definition tod2map (self : TimeOrderedDataPairDiff) (waferts : list (list float))
  (output_maps : OutputSkyMap) : result OutputSkyMap :=
  let npair := length waferts in
  nt ← match waferts with row :: _ => Ok (length row) | [] => Raise IndexError end;
  let shape_ok (rows : nat) : bool := Nat.even npair && (Nat.div2 npair =? rows)%nat in
  _ ← py_assert (shape_ok (length (point_matrix self)));
  _ ← py_assert (nt =? nsamples self)%nat;
  _ ← py_assert (shape_ok (length (pol_angs self)));
  _ ← py_assert (nt =? nsamples self)%nat;
  _ ← py_assert (shape_ok (length (diff_weight self)));
  _ ← py_assert (shape_ok (length (sum_weight self)));
  Ok (tod2map_alldet_f output_maps (concat (point_matrix self))
        (concat (pol_angs self)) (concat waferts)
        (diff_weight self) (sum_weight self) nt
        (concat (wafermask_pixel self)) (Nat.div2 npair) (npixsky self)).

End Projectors.
End PairDiff.

(** ** [class pointing]: the pointing-model corrector *)

(** [np.min(a)]: the reduction keeps the running value when it is less than
    or equal to the next cell or is NaN; an empty array has no minimum. *)
Definition np_min (a : list float) : result float :=
  match a with
  | [] => Raise ValueError
  | x :: a' =>
      Ok (foldl (fun acc y => if PrimFloat.leb acc y || PrimFloat.is_nan acc
                              then acc else y) x a')
  end.

(** [a op= b]: the result keeps the shape of [a]. *)
Definition np_iop (st : seterr_invalid) (f : float -> float -> float)
  (a b : list float) : result (list float) :=
  b' ← inplace_operand (length a) b;
  ufunc2 st f a b'.

Module Pointing.

(** [sec2deg], the module constant [360.0/86400.0]. *)
Definition sec2deg : float := (360 / 86400)%float.

(** The attributes set by [__init__] before the model is applied; [lat] is
    already in radians there. *)
Record pointing : Type := {
  az_enc : list float;
  el_enc : list float;
  time : list float;
  value_params : list float;
  allowed_params : string;
  lat : float
}.

(** The dictionary [params]: every known name at zero, then the value at
    the name's first position in [allowed_params], for the names given. *)
Definition known_params : list string :=
  ["an"; "aw"; "an2"; "aw2"; "an4"; "aw4"; "npae"; "ca"; "ia"; "ie"; "tf";
   "tfs"; "ref"; "dt"; "elt"; "ta1"; "te1"; "sa"; "se"; "sa2"; "se2"; "sta";
   "ste"; "sta2"; "ste2"]%string.

Definition params (self : pointing) (name : string) : float :=
  if existsb (String.eqb name) known_params then
    match index_of name (split_ws (allowed_params self)) with
    | Some i => default 0%float (value_params self !! i)
    | None => 0%float
    end
  else 0%float.

Section Model.
Context `{Libm}.
Variable st : seterr_invalid.
Local Open Scope string_scope.

(** [coef * trig(mult * x)], or [coef * trig(x)] without a multiple. *)
Definition scaled_trig (coef : float) (trig : float -> float)
  (mult : option float) (x : list float) : result (list float) :=
  arg ← match mult with
         | Some k => ufunc_sl st PrimFloat.mul k x
         | None => Ok x
         end;
  t ← ufunc1 st trig arg;
  ufunc_sl st PrimFloat.mul coef t.

(** [coef * trig(mult * az) * sin(el)], a term of the azimuth offset. *)
Definition az_term (coef : float) (trig : float -> float) (mult : option float)
  (az el : list float) : result (list float) :=
  a ← scaled_trig coef trig mult az;
  s ← ufunc1 st sin el;
  ufunc2 st PrimFloat.mul a s.

(** The time-linear term of the elevation offset:
    [params['elt'] * (self.time - np.min(self.time))]. *)
Definition elt_term (elt : float) (time : list float) : result (list float) :=
  t0 ← np_min time;
  rel ← ufunc_sr st PrimFloat.sub time t0;
  ufunc_sl st PrimFloat.mul elt rel.

(** The azimuth offset, in arc minutes, before the conversion. *)
Definition azimuth_offset (self : pointing) (dt : float) : result (list float) :=
  let p := params self in
  let az := az_enc self in
  let el := el_enc self in
  azd ← az_term (- p "an")%float sin None az el;
  t ← az_term (p "aw") cos None az el;
  azd ← np_iop st PrimFloat.sub azd t;
  t ← az_term (- p "an2")%float sin (Some 2%float) az el;
  azd ← np_iop st PrimFloat.sub azd t;
  t ← az_term (p "aw2") cos (Some 2%float) az el;
  azd ← np_iop st PrimFloat.sub azd t;
  t ← az_term (- p "an4")%float sin (Some 4%float) az el;
  azd ← np_iop st PrimFloat.sub azd t;
  t ← az_term (p "aw4") cos (Some 4%float) az el;
  azd ← np_iop st PrimFloat.sub azd t;
  t ← scaled_trig (p "npae") sin None el;
  azd ← np_iop st PrimFloat.add azd t;
  azd ← ufunc_sr st PrimFloat.sub azd (p "ca");
  t ← scaled_trig (p "ia") cos None el;
  azd ← np_iop st PrimFloat.add azd t;
  c ← ufunc1 st cos az;
  c ← ufunc_sr st PrimFloat.mul c (cos (lat self));
  tn ← ufunc1 st tan el;
  c ← ufunc2 st PrimFloat.mul c tn;
  c ← ufunc_sl st PrimFloat.add (- sin (lat self))%float c;
  t ← ufunc_sl st PrimFloat.mul dt c;
  np_iop st PrimFloat.add azd t.

(** The elevation offset, in arc minutes, before the conversion. *)
Definition elevation_offset (self : pointing) (dt : float) : result (list float) :=
  let p := params self in
  let az := az_enc self in
  let el := el_enc self in
  eld ← scaled_trig (p "an") cos None az;
  t ← scaled_trig (p "aw") sin None az;
  eld ← np_iop st PrimFloat.sub eld t;
  t ← scaled_trig (p "an2") cos (Some 2%float) az;
  eld ← np_iop st PrimFloat.sub eld t;
  t ← scaled_trig (p "aw2") sin (Some 2%float) az;
  eld ← np_iop st PrimFloat.sub eld t;
  t ← scaled_trig (p "an4") cos (Some 4%float) az;
  eld ← np_iop st PrimFloat.sub eld t;
  t ← scaled_trig (p "aw4") sin (Some 4%float) az;
  eld ← np_iop st PrimFloat.sub eld t;
  eld ← ufunc_sr st PrimFloat.sub eld (p "ie");
  t ← scaled_trig (p "tf") cos None el;
  eld ← np_iop st PrimFloat.add eld t;
  t ← scaled_trig (p "tfs") sin None el;
  eld ← np_iop st PrimFloat.add eld t;
  tn ← ufunc1 st tan el;
  t ← ufunc_sl st PrimFloat.div (p "ref") tn;
  eld ← np_iop st PrimFloat.sub eld t;
  t ← scaled_trig (- dt * cos (lat self))%float sin None az;
  eld ← np_iop st PrimFloat.add eld t;
  t ← elt_term (p "elt") (time self);
  np_iop st PrimFloat.add eld t.

(** [apply_pointing_model]: the corrected azimuth and elevation. *)
Definition apply_pointing_model (self : pointing)
  : result (list float * list float) :=
  _ ← py_assert (length (value_params self)
                 =? length (split_ws (allowed_params self)))%nat;
  let dt := (params self "dt" * sec2deg)%float in
  azd ← azimuth_offset self dt;
  eld ← elevation_offset self dt;
  let am := (F.pi / (180 * 60))%float in
  azd ← ufunc_sr st PrimFloat.mul azd am;
  eld ← ufunc_sr st PrimFloat.mul eld am;
  c ← ufunc1 st cos (el_enc self);
  azd ← np_iop st PrimFloat.div azd c;
  az ← ufunc2 st PrimFloat.sub (az_enc self) azd;
  el ← ufunc2 st PrimFloat.sub (el_enc self) eld;
  Ok (az, el).

(** [pointing(az_enc, el_enc, time, value_params, allowed_params, lat)]:
    the attributes, with the latitude turned to radians, and the corrected
    angles. *)
Definition init (az_enc el_enc time value_params : list float)
  (allowed_params : string) (lat : float)
  : result (pointing * (list float * list float)) :=
  let self := {| az_enc := az_enc; el_enc := el_enc; time := time;
                 value_params := value_params; allowed_params := allowed_params;
                 lat := (lat * d2r)%float |} in
  r ← apply_pointing_model self;
  Ok (self, r).

End Model.
End Pointing.

(** ** Well-shaped accumulators *)

(** The invariant of the accumulator: its arrays all have one cell per
    pixel. *)
Definition shaped (n : nat) (m : OutputSkyMap) : Prop :=
  length (d m) = n /\ length (dc m) = n /\ length (ds m) = n /\
  length (w m) = n /\ length (cc m) = n /\ length (cs m) = n /\
  length (ss m) = n /\ nd_len (nhit m) = n.

(** The accumulator contents: the seven arrays and the hit counts. *)
Definition contents (m : OutputSkyMap)
  : list (list float) * ndarray :=
  ([d m; dc m; ds m; w m; cc m; cs m; ss m], nhit m).

(** ** Sample objects *)

(** An accumulator over a flat patch with the given arrays. *)
Definition accumulator (d dc ds w cc cs ss : list float) (nhit : ndarray)
  : OutputSkyMap :=
  {| projection := "flat"; obspix := None;
     npixsky := Z.of_nat (length d); nside := None; pixel_size := Some 2%float;
     d := d; dc := dc; ds := ds; w := w; cc := cc; cs := cs; ss := ss;
     nhit := nhit; idet := None |}.

(** Two pixels: one observed at two angles, one never observed. *)
Definition two_pixels : OutputSkyMap :=
  accumulator [6; 0]%float [3; 0]%float [1; 0]%float [2; 0]%float
    [2; 0]%float [0; 0]%float [2; 0]%float (NdI [4; 0]).

(** One pixel with a vanishing determinant and a large right-hand side;
    every cell is a finite number. *)
Definition large_rhs : OutputSkyMap :=
  accumulator [0]%float [0x1p1000]%float [0]%float [0]%float
    [0]%float [0]%float [0x1p1000]%float (NdI [1]).

(** One pixel whose weights are large but finite, so that the determinant
    is the difference of two overflowed products. *)
Definition large_weights : OutputSkyMap :=
  accumulator [0]%float [1]%float [1]%float [0]%float
    [0x1p700]%float [0x1p700]%float [0x1p700]%float (NdI [1]).

(** One pixel with a NaN in its [cc] cell. *)
Definition nan_weight : OutputSkyMap :=
  accumulator [0]%float [1]%float [1]%float [0]%float
    [nan]%float [1]%float [1]%float (NdI [1]).

(** ** What [coadd] is expected to compute *)











(** ** Stand-ins for the collaborators, to run the model on examples *)

(** Polynomial approximations in place of the C library. *)
Definition taylor_sin (x : float) : float :=
  (x - x * x * x / 6 + x * x * x * x * x / 120)%float.
Definition taylor_cos (x : float) : float :=
  (1 - x * x / 2 + x * x * x * x / 24)%float.
Definition taylor_libm : Libm :=
  {| sin := taylor_sin; cos := taylor_cos;
     tan := fun x => (taylor_sin x / taylor_cos x)%float |}.

(** Colatitude and longitude from declination and right ascension, no
    rotation, and a latitude-longitude grid in place of the HEALPix scheme. *)
Definition grid_geometry : Geometry :=
  {| radec2thetaphi := fun ra dec => ((F.pi / 2 - dec)%float, ra);
     rotator_C_G := fun theta phi => (theta, phi);
     ang2pix := fun nside theta phi =>
       np_int_ (theta * float_of_Z nside)%float * (4 * nside)
       + np_int_ (phi * float_of_Z nside)%float;
     LamCyl := fun ra dec => (ra, taylor_sin dec) |}.

(** A sky of resolution 16 with constant maps, one pair of detectors, two
    samples, and a pointing that puts the first sample outside the patch. *)
Definition constant_sky (pol : bool) : PairDiff.HealpixFitsMap :=
  {| PairDiff.map_nside := 16;
     PairDiff.map_I := replicate 3072 4%float;
     PairDiff.map_Q := replicate 3072 2%float;
     PairDiff.map_U := replicate 3072 1%float;
     PairDiff.do_pol := pol;
     PairDiff.ext_map_gal := false |}.

Definition one_pair (pol : bool) : PairDiff.TimeOrderedDataPairDiff :=
  {| PairDiff.projection := "healpix";
     PairDiff.width := 20%float;
     PairDiff.nsamples := 2;
     PairDiff.xpos := [0; 0]%float;
     PairDiff.ypos := [0; 0]%float;
     PairDiff.intrinsic_polangle := [0; 90]%float;
     PairDiff.hwpangle := [0; 0.25]%float;
     PairDiff.pol_angs := [[0; 0]%float];
     PairDiff.point_matrix := [[0; 0]];
     PairDiff.wafermask_pixel := [[1; 1]];
     PairDiff.obspix := [832; 1200; 2592];
     PairDiff.npixsky := 3;
     PairDiff.pixel_size := 0.0625%float;
     PairDiff.sum_weight := [1];
     PairDiff.diff_weight := [1];
     PairDiff.sky := constant_sky pol;
     PairDiff.offset_detector := fun azd eld =>
       ([azd; azd], [eld - 0.75; eld + 0.75], [0.25; 0.5])%float |}.

(** ** Samples on which the zero model is exact *)

Section Benign.
Context `{Libm}.

(** What the terms of the model need of one sample (azimuth [a], elevation
    [e], time [t], with [tmin] the least time and [lat] the latitude) for a
    zero coefficient to give a zero term: the values of the trigonometric
    functions there are finite, the tangent and the cosine of the elevation
    are not zero, and the time since the start is finite. *)
Definition benign (lat tmin a e t : float) : Prop :=
  F.finiteb a = true /\ F.finiteb e = true /\
  F.finiteb (sin a) = true /\ F.finiteb (cos a) = true /\
  F.finiteb (sin (2 * a)%float) = true /\ F.finiteb (cos (2 * a)%float) = true /\
  F.finiteb (sin (4 * a)%float) = true /\ F.finiteb (cos (4 * a)%float) = true /\
  F.finiteb (sin e) = true /\ F.finiteb (cos e) = true /\
  F.finiteb (tan e) = true /\
  F.zerob (tan e) = false /\ F.zerob (cos e) = false /\
  F.finiteb (- sin lat + cos a * cos lat * tan e)%float = true /\
  F.finiteb (cos lat) = true /\
  F.finiteb (t - tmin)%float = true.

End Benign.

(** A scan of two samples above the horizon, and one with a sample on it. *)
Definition scan_above : Pointing.pointing :=
  {| Pointing.az_enc := [0.125; 0.25]%float;
     Pointing.el_enc := [0.5; 0.75]%float;
     Pointing.time := [56293; 56294]%float;
     Pointing.value_params := [];
     Pointing.allowed_params := "";
     Pointing.lat := (-0.375)%float |}.

Definition scan_horizon : Pointing.pointing :=
  {| Pointing.az_enc := [0.125; 0.25]%float;
     Pointing.el_enc := [0.5; 0]%float;
     Pointing.time := [56293; 56294]%float;
     Pointing.value_params := [];
     Pointing.allowed_params := "";
     Pointing.lat := (-0.375)%float |}.

(** ** The model on one sample *)

Section OneSample.
Context `{Libm}.
Local Open Scope float_scope.
Local Open Scope string_scope.

(** The azimuth offset of [azimuth_offset] at a sample of azimuth [a] and
    elevation [e]. *)
Definition azd_sample (p : string -> float) (dt lat a e : float) : float :=
  let azd := - p "an" * sin a * sin e in
  let azd := azd - p "aw" * cos a * sin e in
  let azd := azd - - p "an2" * sin (2 * a) * sin e in
  let azd := azd - p "aw2" * cos (2 * a) * sin e in
  let azd := azd - - p "an4" * sin (4 * a) * sin e in
  let azd := azd - p "aw4" * cos (4 * a) * sin e in
  let azd := azd + p "npae" * sin e in
  let azd := azd - p "ca" in
  let azd := azd + p "ia" * cos e in
  azd + dt * (- sin lat + cos a * cos lat * tan e).

(** The elevation offset of [elevation_offset] at a sample of time [t],
    [tmin] being the least time of the scan. *)
Definition eld_sample (p : string -> float) (dt lat tmin a e t : float) : float :=
  let eld := p "an" * cos a in
  let eld := eld - p "aw" * sin a in
  let eld := eld - p "an2" * cos (2 * a) in
  let eld := eld - p "aw2" * sin (2 * a) in
  let eld := eld - p "an4" * cos (4 * a) in
  let eld := eld - p "aw4" * sin (4 * a) in
  let eld := eld - p "ie" in
  let eld := eld + p "tf" * cos e in
  let eld := eld + p "tfs" * sin e in
  let eld := eld - p "ref" / tan e in
  let eld := eld + - dt * cos lat * sin a in
  eld + p "elt" * (t - tmin).

(** The corrected angles of one sample. *)
Definition az_sample (p : string -> float) (lat a e : float) : float :=
  a - azd_sample p (p "dt" * Pointing.sec2deg) lat a e * (F.pi / (180 * 60)) / cos e.

Definition el_sample (p : string -> float) (lat tmin a e t : float) : float :=
  e - eld_sample p (p "dt" * Pointing.sec2deg) lat tmin a e t * (F.pi / (180 * 60)).

End OneSample.

(** * Properties

    ** float64 arithmetic on zeros, finite numbers and NaN *)

Section FloatFacts.
Local Open Scope float_scope.

Lemma SFcompare_refl x : x <> S754_nan -> SFcompare x x = Some Eq.
Proof.
  intros Hx. destruct x as [s|s| |s m e]; simpl; try congruence.
  - destruct s; reflexivity.
  - destruct s; rewrite Z.compare_refl, Pos.compare_cont_refl; reflexivity.
Qed.

Lemma is_nan_SF x : is_nan x = true <-> Prim2SF x = S754_nan.
Proof.
  unfold is_nan. rewrite FloatAxioms.eqb_spec. unfold SFeqb.
  destruct (Prim2SF x) eqn:E.
  - rewrite SFcompare_refl by congruence. simpl. split; congruence.
  - rewrite SFcompare_refl by congruence. simpl. split; congruence.
  - simpl. tauto.
  - rewrite SFcompare_refl by congruence. simpl. split; congruence.
Qed.

Lemma zerob_SF x : F.zerob x = true <-> exists s, Prim2SF x = S754_zero s.
Proof.
  unfold F.zerob. rewrite FloatAxioms.eqb_spec. unfold SFeqb.
  change (Prim2SF 0) with (S754_zero false).
  destruct (Prim2SF x) as [s|s| |s m e]; simpl.
  - split; eauto.
  - destruct s; split; try congruence; intros [? ?]; congruence.
  - split; try congruence; intros [? ?]; congruence.
  - destruct s; split; try congruence; intros [? ?]; congruence.
Qed.

Lemma finiteb_SF x : F.finiteb x = true <->
  (exists s, Prim2SF x = S754_zero s) \/ (exists s m e, Prim2SF x = S754_finite s m e).
Proof.
  unfold F.finiteb, is_finite, is_infinity, is_nan.
  rewrite !FloatAxioms.eqb_spec, FloatAxioms.abs_spec. unfold SFeqb.
  change (Prim2SF infinity) with (S754_infinity false).
  destruct (Prim2SF x) as [s|s| |s m e]; try destruct s; simpl;
    rewrite ?Z.compare_refl, ?Pos.compare_cont_refl; simpl;
    (split; [intros Hx; try discriminate Hx; eauto
            | intros [[? Hx]|[? [? [? Hx]]]]; try discriminate Hx; reflexivity]).
Qed.

Ltac sf_hyps :=
  repeat match goal with
  | H : F.zerob _ = true |- _ => apply zerob_SF in H; destruct H as [? H]
  | H : F.finiteb _ = true |- _ =>
      apply finiteb_SF in H; destruct H as [[? H]|[? [? [? H]]]]
  | H : is_nan _ = true |- _ => apply is_nan_SF in H
  end.

Ltac sf_zero :=
  apply zerob_SF;
  rewrite ?FloatAxioms.mul_spec, ?FloatAxioms.add_spec, ?FloatAxioms.sub_spec, ?FloatAxioms.div_spec, ?FloatAxioms.opp_spec;
  repeat match goal with H : Prim2SF _ = _ |- _ => rewrite H end;
  unfold SF64mul, SF64add, SF64sub, SF64div; simpl; eauto.

Lemma zerob_mul_l a b : F.zerob a = true -> F.finiteb b = true -> F.zerob (a * b) = true.
Proof. intros Ha Hb. sf_hyps; sf_zero. Qed.


Lemma zerob_opp a : F.zerob a = true -> F.zerob (- a) = true.
Proof. intros Ha. sf_hyps; sf_zero. Qed.

Lemma zerob_add a b : F.zerob a = true -> F.zerob b = true -> F.zerob (a + b) = true.
Proof.
  intros Ha Hb. apply zerob_SF in Ha as [sa Ha]. apply zerob_SF in Hb as [sb Hb].
  apply zerob_SF. rewrite FloatAxioms.add_spec, Ha, Hb.
  destruct sa, sb; simpl; eauto.
Qed.

Lemma zerob_sub a b : F.zerob a = true -> F.zerob b = true -> F.zerob (a - b) = true.
Proof.
  intros Ha Hb. apply zerob_SF in Ha as [sa Ha]. apply zerob_SF in Hb as [sb Hb].
  apply zerob_SF. rewrite FloatAxioms.sub_spec, Ha, Hb.
  destruct sa, sb; simpl; eauto.
Qed.

Lemma zerob_div a b :
  F.zerob a = true -> F.finiteb b = true -> F.zerob b = false -> F.zerob (a / b) = true.
Proof.
  intros Ha Hb Hnz. sf_hyps.
  - assert (F.zerob b = true) by (apply zerob_SF; eauto). congruence.
  - sf_zero.
Qed.

Lemma zerob_finiteb a : F.zerob a = true -> F.finiteb a = true.
Proof. intros Ha. sf_hyps. apply finiteb_SF. eauto. Qed.

Lemma sub_zero_eqb x z :
  is_nan x = false -> F.zerob z = true -> (x - z =? x)%float = true.
Proof.
  intros Hx Hz. apply zerob_SF in Hz as [sz Hz].
  rewrite FloatAxioms.eqb_spec, FloatAxioms.sub_spec, Hz.
  assert (Hn : Prim2SF x <> S754_nan).
  { intros E. apply is_nan_SF in E. congruence. }
  unfold SFeqb, SF64sub. destruct (Prim2SF x) as [s|s| |s m e]; try congruence.
  - destruct s, sz; reflexivity.
  - destruct s; reflexivity.
  - destruct s; simpl; rewrite Z.compare_refl, Pos.compare_cont_refl; reflexivity.
Qed.




End FloatFacts.

(** ** Arrays *)

Section ArrayFacts.
Context {A B : Type}.

Lemma fmap_zip_with {C} (f : A -> B -> C) (a : list A) (b : list B) :
  (fun p => f (fst p) (snd p)) <$> zip a b = zip_with f a b.
Proof.
  revert b; induction a as [|x a IH]; intros [|y b]; simpl; try reflexivity.
  now rewrite IH.
Qed.

Lemma broadcast2_same_length (a : list A) (b : list B) :
  length a = length b -> broadcast2 a b = Ok (zip a b).
Proof. intros E. unfold broadcast2. now rewrite E, Nat.eqb_refl. Qed.

Lemma length_np_mask_set (a : list A) mask vals :
  length (np_mask_set a mask vals) = length a.
Proof.
  revert mask vals; induction a as [|x a IH]; intros [|[] mk] vals; simpl;
    try reflexivity; destruct vals; simpl; now rewrite IH.
Qed.

Lemma length_np_mask_get (mask : list bool) (a : list A) (b : list B) :
  length a = length b -> length (np_mask_get mask a) = length (np_mask_get mask b).
Proof.
  revert a b; induction mask as [|[] mk IH]; intros [|x a] [|y b] E; simpl in *;
    try reflexivity; try discriminate; auto.
Qed.

(** Writing [g] of the selected cells of [xs] back through the same mask. *)
Lemma np_mask_set_get_lookup (g : B -> A) (mask : list bool) (a : list A)
  (xs : list B) (i : nat) (m : bool) z x :
  mask !! i = Some m -> a !! i = Some z -> xs !! i = Some x ->
  np_mask_set a mask (g <$> np_mask_get mask xs) !! i
  = Some (if m then g x else z).
Proof.
  revert a xs i; induction mask as [|b mk IH]; intros [|z' a] [|x' xs] [|i];
    simpl; try discriminate.
  - intros [= <-] [= <-] [= <-]. destruct b; reflexivity.
  - intros Hm Hz Hx. destruct b; simpl; apply IH; assumption.
Qed.

End ArrayFacts.

Lemma np_mask_set_get2_lookup {A B C} (f : B -> C -> A) (mask : list bool)
  (a : list A) (xs : list B) (ys : list C) (i : nat) (m : bool) z x y :
  mask !! i = Some m -> a !! i = Some z -> xs !! i = Some x -> ys !! i = Some y ->
  np_mask_set a mask (zip_with f (np_mask_get mask xs) (np_mask_get mask ys)) !! i
  = Some (if m then f x y else z).
Proof.
  revert a xs ys i; induction mask as [|b mk IH]; intros [|z' a] [|x' xs] [|y' ys] [|i];
    simpl; try discriminate.
  - intros [= <-] [= <-] [= <-] [= <-]. destruct b; reflexivity.
  - intros Hm Hz Hx Hy. destruct b; simpl; apply IH; assumption.
Qed.

Lemma np_mask_fill_lookup {A} (a : list A) (mask : list bool) v (i : nat) z (m : bool) :
  a !! i = Some z -> mask !! i = Some m ->
  np_mask_fill a mask v !! i = Some (if m then v else z).
Proof.
  intros Ha Hm. unfold np_mask_fill. rewrite lookup_zip_with, Ha. simpl.
  now rewrite Hm.
Qed.

Lemma fp_check_warn {A} flags (r : A) : fp_check InvalidWarn flags r = Ok r.
Proof. reflexivity. Qed.

Lemma fp_check_ok {A} st flags (r r' : A) : fp_check st flags r = Ok r' -> r' = r.
Proof.
  destruct st; simpl; [congruence|]. destruct (existsb id flags); congruence.
Qed.

Lemma ufunc2_warn f a b :
  length a = length b -> ufunc2 InvalidWarn f a b = Ok (zip_with f a b).
Proof.
  intros E. unfold ufunc2. rewrite broadcast2_same_length by assumption.
  simpl. now rewrite fmap_zip_with.
Qed.

Lemma ufunc2_ok st f a b r :
  length a = length b -> ufunc2 st f a b = Ok r -> r = zip_with f a b.
Proof.
  intros E. unfold ufunc2. rewrite broadcast2_same_length by assumption.
  simpl. intros Hr. apply fp_check_ok in Hr. now rewrite fmap_zip_with in Hr.
Qed.

Lemma lookup_np_zeros n i : (i < n)%nat -> np_zeros n !! i = Some 0%float.
Proof. intros Hi. unfold np_zeros. now apply lookup_replicate_2. Qed.

(** ** The solver *)

Lemma get_I_warn (m : OutputSkyMap) :
  length (d m) = length (w m) ->
  get_I InvalidWarn m
  = Ok (np_mask_set (np_zeros (length (d m)))
          ((fun x => PrimFloat.ltb 0 x) <$> w m)
          (zip_with PrimFloat.div
             (np_mask_get ((fun x => PrimFloat.ltb 0 x) <$> w m) (d m))
             (np_mask_get ((fun x => PrimFloat.ltb 0 x) <$> w m) (w m)))).
Proof.
  intros E. unfold get_I, np_gt_s. rewrite fp_check_warn. cbn [mbind result_bind].
  unfold check_mask. rewrite length_fmap, <- E, Nat.eqb_refl. cbn [mbind result_bind].
  rewrite ufunc2_warn by (apply length_np_mask_get; exact E).
  reflexivity.
Qed.

Lemma get_I_lookup (m : OutputSkyMap) (i : nat) di wi :
  length (d m) = length (w m) ->
  d m !! i = Some di -> w m !! i = Some wi ->
  exists Imap, get_I InvalidWarn m = Ok Imap /\ length Imap = length (d m) /\
    Imap !! i = Some (if PrimFloat.ltb 0 wi then (di / wi)%float else 0%float).
Proof.
  intros E Hd Hw. eexists. split; [apply get_I_warn; exact E|].
  split; [rewrite length_np_mask_set; apply length_replicate|].
  apply np_mask_set_get2_lookup; try assumption.
  - rewrite list_lookup_fmap, Hw. reflexivity.
  - apply lookup_np_zeros. eapply lookup_lt_Some; eassumption.
Qed.

(** The inverse determinant of one pixel, as the default error state
    computes it. *)
Lemma get_QU_idet_warn (m : OutputSkyMap) :
  length (cc m) = length (ss m) -> length (cs m) = length (cc m) ->
  exists idet, get_QU_idet InvalidWarn m = Ok idet /\ length idet = length (cc m) /\
    forall (i : nat) c x s, cc m !! i = Some c -> cs m !! i = Some x -> ss m !! i = Some s ->
      let t := (c * s - x * x)%float in
      idet !! i = Some (if PrimFloat.ltb (PrimFloat.abs t) F.eps32 then 0%float
                        else if F.neb t 0 then (1 / t)%float else 0%float).
Proof.
  intros E1 E2. unfold get_QU_idet.
  rewrite (ufunc2_warn _ (cc m) (ss m)) by assumption. cbn [mbind result_bind].
  rewrite (ufunc2_warn _ (cs m) (cs m)) by reflexivity. cbn [mbind result_bind].
  rewrite ufunc2_warn by (rewrite !length_zip_with; lia). cbn [mbind result_bind].
  unfold ufunc_sl, np_lt_s. rewrite !fp_check_warn. cbn [mbind result_bind].
  eexists. split; [reflexivity|]. split.
  - unfold np_mask_fill, np_abs. rewrite !length_zip_with, length_np_mask_set, !length_fmap.
    unfold np_zeros. rewrite length_replicate, !length_zip_with. lia.
  - intros i c x s Hc Hx Hs.
    assert (Ht : zip_with PrimFloat.sub (zip_with PrimFloat.mul (cc m) (ss m))
                   (zip_with PrimFloat.mul (cs m) (cs m)) !! i
                 = Some (c * s - x * x)%float).
    { rewrite !lookup_zip_with, Hc, Hs, Hx. reflexivity. }
    erewrite np_mask_fill_lookup.
    + reflexivity.
    + apply np_mask_set_get_lookup; [|apply lookup_np_zeros; eapply lookup_lt_Some; exact Ht|exact Ht].
      unfold np_ne_s. rewrite list_lookup_fmap, Ht. reflexivity.
    + unfold np_abs. rewrite !list_lookup_fmap, Ht. reflexivity.
Qed.

Lemma get_QU_warn (n : nat) (m : OutputSkyMap) :
  shaped n m ->
  exists idet Q U,
    get_QU_idet InvalidWarn m = Ok idet /\
    snd (get_QU InvalidWarn m) = Ok (Q, U) /\
    length Q = n /\ length U = n /\
    forall (i : nat) c x s a b,
      cc m !! i = Some c -> cs m !! i = Some x -> ss m !! i = Some s ->
      dc m !! i = Some a -> ds m !! i = Some b ->
      let t := (c * s - x * x)%float in
      let id := if PrimFloat.ltb (PrimFloat.abs t) F.eps32 then 0%float
                else if F.neb t 0 then (1 / t)%float else 0%float in
      Q !! i = Some (id * (s * a - x * b))%float /\
      U !! i = Some (id * (- x * a + c * b))%float.
Proof.
  intros (Hd & Hdc & Hds & Hw & Hcc & Hcs & Hss & Hn).
  destruct (get_QU_idet_warn m) as (idet & Hid & Hlen & Hpix); [lia|lia|].
  unfold get_QU. rewrite Hid. cbn [snd].
  rewrite (ufunc2_warn _ (ss m) (dc m)) by lia. cbn [mbind result_bind].
  rewrite (ufunc2_warn _ (cs m) (ds m)) by lia. cbn [mbind result_bind].
  rewrite (ufunc2_warn PrimFloat.sub) by (rewrite !length_zip_with; lia).
  cbn [mbind result_bind].
  rewrite (ufunc2_warn _ idet) by (rewrite !length_zip_with; lia).
  cbn [mbind result_bind].
  rewrite (ufunc2_warn _ (np_neg (cs m)) (dc m))
    by (unfold np_neg; rewrite length_fmap; lia).
  cbn [mbind result_bind].
  rewrite (ufunc2_warn _ (cc m) (ds m)) by lia. cbn [mbind result_bind].
  rewrite (ufunc2_warn PrimFloat.add)
    by (unfold np_neg; rewrite !length_zip_with, length_fmap; lia).
  cbn [mbind result_bind].
  rewrite (ufunc2_warn _ idet)
    by (unfold np_neg; rewrite !length_zip_with, length_fmap; lia).
  cbn [mbind result_bind].
  exists idet. eexists. eexists. split; [reflexivity|]. split; [reflexivity|].
  split; [unfold np_neg; rewrite !length_zip_with; lia|].
  split; [unfold np_neg; rewrite !length_zip_with, length_fmap; lia|].
  intros i c x s a b Hc Hx Hs Ha Hb.
  specialize (Hpix i c x s Hc Hx Hs). cbv zeta in Hpix |- *.
  unfold np_neg. rewrite !lookup_zip_with, list_lookup_fmap, Hpix, Hc, Hx, Hs, Ha, Hb.
  split; reflexivity.
Qed.


Lemma bind_ok {A B} (r : result A) (k : A -> result B) (b : B) :
  r ≫= k = Ok b -> exists a, r = Ok a /\ k a = Ok b.
Proof. destruct r as [a|e]; cbn [mbind result_bind]; [eauto|discriminate]. Qed.

(** Whatever the error state, a call that returns gives what the default
    state gives. *)
Lemma get_I_ok (st : seterr_invalid) (m : OutputSkyMap) (Imap : list float) :
  length (d m) = length (w m) ->
  get_I st m = Ok Imap -> get_I InvalidWarn m = Ok Imap.
Proof.
  intros E HI. rewrite get_I_warn by assumption. unfold get_I in HI.
  apply bind_ok in HI as (hit & Hhit & HI). unfold np_gt_s in Hhit.
  apply fp_check_ok in Hhit. subst hit.
  apply bind_ok in HI as (u & _ & HI).
  apply bind_ok in HI as (q & Hq & HI).
  apply ufunc2_ok in Hq; [|apply length_np_mask_get; exact E]. subst q.
  congruence.
Qed.

Lemma ltb_abs_not_nan (t e : float) :
  PrimFloat.ltb (PrimFloat.abs t) e = true -> PrimFloat.is_nan t = false.
Proof.
  intros Hlt. destruct (PrimFloat.is_nan t) eqn:Hn; [|reflexivity].
  apply is_nan_SF in Hn.
  rewrite FloatAxioms.ltb_spec, FloatAxioms.abs_spec, Hn in Hlt. discriminate.
Qed.

(** The mask of singular pixels, on either path of the [try]: a pixel
    below the threshold is in it. *)
Lemma izero_singular (st : seterr_invalid) (testcc : list float)
  (izero : list bool) (i : nat) (t : float) :
  match np_lt_s st (np_abs testcc) F.eps32 with
  | Raise FloatingPointError =>
      rest ← np_lt_s st (np_abs (np_mask_get (negb <$> np_isnan testcc) testcc))
               F.eps32;
      Ok (np_mask_set (np_isnan testcc) (negb <$> np_isnan testcc) rest)
  | r => r
  end = Ok izero ->
  testcc !! i = Some t ->
  PrimFloat.ltb (PrimFloat.abs t) F.eps32 = true ->
  izero !! i = Some true.
Proof.
  intros Hz Ht Hlt.
  assert (Hnormal : forall iz, np_lt_s st (np_abs testcc) F.eps32 = Ok iz ->
                               iz !! i = Some true).
  { intros iz Hiz. unfold np_lt_s in Hiz. apply fp_check_ok in Hiz. subst iz.
    unfold np_abs. rewrite !list_lookup_fmap, Ht. simpl. now rewrite Hlt. }
  destruct (np_lt_s st (np_abs testcc) F.eps32) as [iz|e] eqn:Hcmp.
  - injection Hz as <-. now apply Hnormal.
  - destruct e; try discriminate.
    apply bind_ok in Hz as (rest & Hrest & Hz). injection Hz as <-.
    unfold np_lt_s in Hrest. apply fp_check_ok in Hrest. subst rest.
    unfold np_abs. rewrite <- list_fmap_compose.
    rewrite (np_mask_set_get_lookup _ _ _ _ i true (PrimFloat.is_nan t) t).
    + cbn [compose]. now rewrite Hlt.
    + unfold np_isnan. rewrite !list_lookup_fmap, Ht. simpl.
      rewrite (ltb_abs_not_nan t F.eps32 Hlt). reflexivity.
    + unfold np_isnan. rewrite list_lookup_fmap, Ht. reflexivity.
    + exact Ht.
Qed.

Lemma get_QU_idet_singular (st : seterr_invalid) (m : OutputSkyMap)
  (idet : list float) :
  length (cc m) = length (ss m) -> length (cs m) = length (cc m) ->
  get_QU_idet st m = Ok idet ->
  length idet = length (cc m) /\
  forall (i : nat) c x s, cc m !! i = Some c -> cs m !! i = Some x -> ss m !! i = Some s ->
    PrimFloat.ltb (PrimFloat.abs (c * s - x * x)) F.eps32 = true ->
    idet !! i = Some 0%float.
Proof.
  intros E1 E2 Hid. unfold get_QU_idet in Hid.
  apply bind_ok in Hid as (ccss & H1 & Hid). apply ufunc2_ok in H1; [|assumption].
  apply bind_ok in Hid as (cscs & H2 & Hid). apply ufunc2_ok in H2; [|reflexivity].
  apply bind_ok in Hid as (testcc & H3 & Hid).
  apply ufunc2_ok in H3; [|subst; rewrite !length_zip_with; lia].
  apply bind_ok in Hid as (inv & H4 & Hid).
  apply bind_ok in Hid as (izero & H5 & Hid). injection Hid as <-.
  assert (Hlt : length testcc = length (cc m)) by (subst; rewrite !length_zip_with; lia).
  assert (Hlz : forall (i : nat), (i < length testcc)%nat -> is_Some (izero !! i)).
  { intros i Hi.
    destruct (np_lt_s st (np_abs testcc) F.eps32) as [iz|e] eqn:Hcmp.
    - injection H5 as <-. unfold np_lt_s in Hcmp. apply fp_check_ok in Hcmp. subst iz.
      apply lookup_lt_is_Some_2. unfold np_abs. rewrite !length_fmap. exact Hi.
    - destruct e; try discriminate.
      apply bind_ok in H5 as (rest & _ & H5). injection H5 as <-.
      apply lookup_lt_is_Some_2. rewrite length_np_mask_set. unfold np_isnan.
      rewrite length_fmap. exact Hi. }
  split.
  - unfold np_mask_fill. rewrite length_zip_with, length_np_mask_set.
    unfold np_zeros. rewrite length_replicate.
    assert (Hliz : (length testcc <= length izero)%nat).
    { destruct (Nat.le_gt_cases (length testcc) (length izero)) as [?|Hgt]; [assumption|].
      destruct (Hlz (length izero)) as [b Hb]; [lia|].
      apply lookup_lt_Some in Hb. lia. }
    lia.
  - intros i c x s Hc Hx Hs Hsing.
    assert (Ht : testcc !! i = Some (c * s - x * x)%float).
    { subst. rewrite !lookup_zip_with, Hc, Hs, Hx. reflexivity. }
    pose proof (izero_singular st testcc izero i _ H5 Ht Hsing) as Hz.
    destruct (lookup_lt_is_Some_2
                (np_mask_set (np_zeros (length testcc)) (np_ne_s testcc 0%float) inv) i)
      as [z Hzv].
    { rewrite length_np_mask_set. unfold np_zeros. rewrite length_replicate.
      eapply lookup_lt_Some; exact Ht. }
    rewrite (np_mask_fill_lookup _ _ _ i z true Hzv Hz). reflexivity.
Qed.

Lemma get_QU_singular (st : seterr_invalid) (n : nat) (m : OutputSkyMap)
  (Q U : list float) :
  shaped n m ->
  snd (get_QU st m) = Ok (Q, U) ->
  length Q = n /\ length U = n /\
  forall (i : nat) c x s a b,
    cc m !! i = Some c -> cs m !! i = Some x -> ss m !! i = Some s ->
    dc m !! i = Some a -> ds m !! i = Some b ->
    PrimFloat.ltb (PrimFloat.abs (c * s - x * x)) F.eps32 = true ->
    Q !! i = Some (0 * (s * a - x * b))%float /\
    U !! i = Some (0 * (- x * a + c * b))%float.
Proof.
  intros (Hd & Hdc & Hds & Hw & Hcc & Hcs & Hss & Hn) HQU. unfold get_QU in HQU.
  destruct (get_QU_idet st m) as [idet|e] eqn:Hid; [|discriminate].
  apply get_QU_idet_singular in Hid as [Hli Hsing]; [|lia|lia].
  cbn [snd] in HQU.
  apply bind_ok in HQU as (ssdc & H1 & HQU). apply ufunc2_ok in H1; [|lia].
  apply bind_ok in HQU as (csds & H2 & HQU). apply ufunc2_ok in H2; [|lia].
  apply bind_ok in HQU as (nq & H3 & HQU).
  apply ufunc2_ok in H3; [|subst; rewrite !length_zip_with; lia].
  apply bind_ok in HQU as (Q' & H4 & HQU).
  apply ufunc2_ok in H4; [|subst; rewrite !length_zip_with; lia].
  apply bind_ok in HQU as (mcsdc & H5 & HQU).
  apply ufunc2_ok in H5; [|unfold np_neg; rewrite length_fmap; lia].
  apply bind_ok in HQU as (ccds & H6 & HQU). apply ufunc2_ok in H6; [|lia].
  apply bind_ok in HQU as (nu & H7 & HQU).
  apply ufunc2_ok in H7; [|subst; unfold np_neg; rewrite !length_zip_with, length_fmap; lia].
  apply bind_ok in HQU as (U' & H8 & HQU).
  apply ufunc2_ok in H8; [|subst; unfold np_neg; rewrite !length_zip_with, length_fmap; lia].
  injection HQU as <- <-. subst.
  split; [rewrite !length_zip_with; lia|].
  split; [unfold np_neg; rewrite !length_zip_with, length_fmap; lia|].
  intros i c x s a b Hc Hx Hs Ha Hb Hlt.
  specialize (Hsing i c x s Hc Hx Hs Hlt).
  unfold np_neg. rewrite !lookup_zip_with, list_lookup_fmap, Hsing, Hc, Hx, Hs, Ha, Hb.
  split; reflexivity.
Qed.

(** C3 (as amended).  For an accumulator of [n] pixels, [get_I] and [get_QU]
    return under numpy's default error state, and whatever the error state,
    when they return: [get_I] gives, per pixel, exactly [0] where the weight
    is not strictly positive (zero, negative or NaN) and [d / w] where it is;
    [get_QU] gives, at a pixel whose determinant [cc*ss - cs*cs] is below the
    float32 machine epsilon in absolute value, [0 * (ss*dc - cs*ds)] and
    [0 * (-cs*dc + cc*ds)], which are zero whenever those numerators are
    finite. *)
Theorem C3_solver_invariants (st : seterr_invalid) (n : nat) (m : OutputSkyMap) :
  shaped n m ->
  (exists Imap, get_I InvalidWarn m = Ok Imap) /\
  (exists Q U, snd (get_QU InvalidWarn m) = Ok (Q, U)) /\
  (forall Imap, get_I st m = Ok Imap ->
     length Imap = n /\
     forall (i : nat) di wi, d m !! i = Some di -> w m !! i = Some wi ->
       (PrimFloat.ltb 0 wi = false -> Imap !! i = Some 0%float) /\
       (PrimFloat.ltb 0 wi = true -> Imap !! i = Some (di / wi)%float)) /\
  (forall Q U, snd (get_QU st m) = Ok (Q, U) ->
     length Q = n /\ length U = n /\
     forall (i : nat) c x s a b,
       cc m !! i = Some c -> cs m !! i = Some x -> ss m !! i = Some s ->
       dc m !! i = Some a -> ds m !! i = Some b ->
       PrimFloat.ltb (PrimFloat.abs (c * s - x * x)) F.eps32 = true ->
       exists q u, Q !! i = Some q /\ U !! i = Some u /\
         (F.finiteb (s * a - x * b) = true -> F.zerob q = true) /\
         (F.finiteb (- x * a + c * b) = true -> F.zerob u = true)).
Proof.
  intros Hs. pose proof Hs as (Hd & Hdc & Hds & Hw & Hcc & Hcs & Hss & Hn).
  split; [|split; [|split]].
  - eexists. apply get_I_warn. lia.
  - destruct (get_QU_warn n m Hs) as (idet & Q & U & _ & HQU & _). eauto.
  - intros Imap HI. apply get_I_ok in HI; [|lia].
    rewrite get_I_warn in HI by lia. injection HI as <-.
    split; [rewrite length_np_mask_set; unfold np_zeros; rewrite length_replicate; lia|].
    intros i di wi Hdi Hwi.
    rewrite (np_mask_set_get2_lookup _ _ _ _ _ i (PrimFloat.ltb 0 wi) 0%float di wi);
      try assumption.
    + split; intros ->; reflexivity.
    + rewrite list_lookup_fmap, Hwi. reflexivity.
    + apply lookup_np_zeros. eapply lookup_lt_Some; eassumption.
  - intros Q U HQU.
    destruct (get_QU_singular st n m Q U Hs HQU) as (HlQ & HlU & Hpix).
    split; [assumption|]. split; [assumption|].
    intros i c x s a b Hc Hx Hss' Ha Hb Hsing.
    destruct (Hpix i c x s a b Hc Hx Hss' Ha Hb Hsing) as [HQ HU].
    eexists _, _. split; [exact HQ|]. split; [exact HU|].
    split; intros Hfin; apply zerob_mul_l; try assumption; reflexivity.
Qed.

Lemma C3_solver_invariants_witness :
  shaped 2 two_pixels /\
  exists Imap, get_I InvalidWarn two_pixels = Ok Imap /\ length Imap = 2%nat.
Proof.
  assert (Hs : shaped 2 two_pixels) by (repeat split; reflexivity).
  split; [exact Hs|].
  destruct (C3_solver_invariants InvalidWarn 2 two_pixels Hs)
    as ([Imap H1] & _ & HI & _).
  exists Imap. split; [exact H1|]. now destruct (HI Imap H1).
Defined.

(** C3, as stated, fails: a pixel with determinant zero, all of whose cells
    are finite, gets [Q = NaN]. *)
Lemma C3_counterexample :
  shaped 1 large_rhs /\
  PrimFloat.ltb (PrimFloat.abs (0 * 0x1p1000 - 0 * 0)) F.eps32 = true /\
  snd (get_QU InvalidWarn large_rhs) = Ok ([nan]%float, [0]%float).
Proof. split; [repeat split; reflexivity|]. split; vm_compute; reflexivity. Qed.

(** At a NaN determinant the default error state leaves the inverse
    determinant, and with it [Q] and [U], NaN. *)
Lemma nan_determinant_warn (n : nat) (m : OutputSkyMap) (i : nat) c x s a b :
  shaped n m ->
  cc m !! i = Some c -> cs m !! i = Some x -> ss m !! i = Some s ->
  dc m !! i = Some a -> ds m !! i = Some b ->
  PrimFloat.is_nan (c * s - x * x) = true ->
  exists Q U, snd (get_QU InvalidWarn m) = Ok (Q, U) /\
    Q !! i = Some nan /\ U !! i = Some nan.
Proof.
  intros Hs Hc Hx Hss Ha Hb Hnan.
  destruct (get_QU_warn n m Hs) as (idet & Q & U & _ & HQU & _ & _ & Hpix).
  exists Q, U. split; [assumption|].
  destruct (Hpix i c x s a b Hc Hx Hss Ha Hb) as [HQ HU]. cbv zeta in HQ, HU.
  apply is_nan_SF in Hnan.
  assert (E1 : PrimFloat.ltb (PrimFloat.abs (c * s - x * x)) F.eps32 = false).
  { rewrite FloatAxioms.ltb_spec, FloatAxioms.abs_spec, Hnan. reflexivity. }
  assert (E2 : F.neb (c * s - x * x) 0 = true).
  { unfold F.neb. rewrite FloatAxioms.eqb_spec, Hnan. reflexivity. }
  assert (E3 : forall y, (1 / (c * s - x * x) * y)%float = nan).
  { intros y. apply Prim2SF_inj.
    rewrite FloatAxioms.mul_spec, FloatAxioms.div_spec, Hnan. reflexivity. }
  rewrite E1, E2, E3 in HQ, HU. split; assumption.
Qed.

(** C4, evaluated.  With finite weights whose determinant is NaN, the
    default error state gives [idet = Q = U = NaN]; when numpy is set to
    raise, the subtraction raises before the [try] is reached.  With a NaN
    cell in [cc] and numpy set to raise, the handler does zero the inverse
    determinant, and [U] is still NaN. *)
Theorem C4_nan_determinant_evaluated :
  PrimFloat.is_nan (0x1p700 * 0x1p700 - 0x1p700 * 0x1p700) = true /\
  get_QU_idet InvalidWarn large_weights = Ok [nan]%float /\
  snd (get_QU InvalidWarn large_weights) = Ok ([nan]%float, [nan]%float) /\
  snd (get_QU InvalidRaise large_weights) = Raise FloatingPointError /\
  get_QU_idet InvalidRaise nan_weight = Ok [0]%float /\
  snd (get_QU InvalidRaise nan_weight) = Ok ([0]%float, [nan]%float) /\
  snd (get_QU InvalidWarn nan_weight) = Ok ([nan]%float, [nan]%float).
Proof. repeat split; vm_compute; reflexivity. Qed.

(** C10.  [get_I] assigns nothing (it maps the object to a result only);
    [get_QU] and [get_IQU] leave the seven arrays and the hit counts as they
    were (the one attribute they assign is [idet]); and what the three
    return is determined by the accumulator contents: two objects with the
    same arrays and hit counts give the same maps. *)
Theorem C10_solver_purity (st : seterr_invalid) (m m2 : OutputSkyMap) :
  contents m2 = contents m ->
  contents (fst (get_QU st m)) = contents m /\
  contents (fst (get_IQU st m)) = contents m /\
  get_I st m2 = get_I st m /\
  snd (get_QU st m2) = snd (get_QU st m) /\
  snd (get_IQU st m2) = snd (get_IQU st m).
Proof.
  intros Hc.
  assert (HQ : contents (fst (get_QU st m)) = contents m).
  { unfold get_QU. destruct (get_QU_idet st m); reflexivity. }
  assert (HI : get_I st m2 = get_I st m).
  { unfold contents in Hc. injection Hc as E1 E2 E3 E4 E5 E6 E7 E8.
    unfold get_I. rewrite E1, E4. reflexivity. }
  assert (HQ2 : snd (get_QU st m2) = snd (get_QU st m)).
  { unfold contents in Hc. injection Hc as E1 E2 E3 E4 E5 E6 E7 E8.
    unfold get_QU, get_QU_idet. rewrite E2, E3, E5, E6, E7.
    match goal with |- snd (match ?r with _ => _ end) = _ => destruct r end;
      reflexivity. }
  repeat split; try assumption.
  - unfold get_IQU. destruct (get_I st m); [|reflexivity].
    destruct (get_QU st m) as [m' r]. simpl in *. exact HQ.
  - unfold get_IQU. rewrite HI. destruct (get_I st m); [|reflexivity].
    destruct (get_QU st m2) as [a2 r2].
    destruct (get_QU st m) as [a' r]. simpl in *. now subst.
Qed.

Lemma C10_solver_purity_witness :
  contents (fst (get_QU InvalidWarn two_pixels)) = contents two_pixels /\
  snd (get_IQU InvalidWarn two_pixels)
  = Ok ([3; 0]%float, [1.5; 0]%float, [0.5; 0]%float).
Proof.
  destruct (C10_solver_purity InvalidWarn two_pixels two_pixels eq_refl)
    as (H1 & _ & _ & _ & _).
  split; [exact H1|vm_compute; reflexivity].
Defined.

(** ** [coadd] *)

Lemma inplace_operand_same {X} (n : nat) (b : list X) :
  length b = n -> inplace_operand n b = Ok b.
Proof. intros E. unfold inplace_operand. now rewrite E, Nat.eqb_refl. Qed.













Lemma wrap32_small z : - 2 ^ 31 <= z < 2 ^ 31 -> wrap32 z = z.
Proof. intros Hz. unfold wrap32. rewrite Z.mod_small; lia. Qed.





(** Whatever the error state, a call that returns gives what the default
    state gives. *)
Lemma ufunc2_sim (st : seterr_invalid) f a b r :
  ufunc2 st f a b = Ok r -> ufunc2 InvalidWarn f a b = Ok r.
Proof.
  unfold ufunc2. destruct (broadcast2 a b) as [ab|e]; cbn [mbind result_bind];
    [|discriminate].
  intros Hr. apply fp_check_ok in Hr. now subst.
Qed.






Lemma obspix_all_eq_refl (a : option (list Z)) : obspix_all_eq a a = true.
Proof.
  destruct a as [x|]; [|reflexivity]. simpl.
  rewrite broadcast2_same_length by reflexivity.
  induction x as [|z x IH]; [reflexivity|]. simpl. now rewrite Z.eqb_refl.
Qed.

(** Arrays of one length that differ are told apart, and the call stops at
    the check with the object as it was. *)
Lemma coadd_rejects_same_length (st : seterr_invalid) (self other : OutputSkyMap)
  (x y : list Z) (to_coadd : string) :
  obspix self = Some x -> obspix other = Some y ->
  length x = length y -> x <> y ->
  coadd st self (Another other) to_coadd = (self, Raise AssertionError).
Proof.
  intros Hx Hy Hl Hne. unfold coadd. cbn [deref]. rewrite Hx, Hy. simpl.
  rewrite broadcast2_same_length by assumption.
  assert (E : forallb (fun p : Z * Z => fst p =? snd p) (zip x y) = false).
  { clear Hx Hy. revert y Hl Hne.
    induction x as [|u x IH]; intros [|v y] Hl Hne; simpl in *; try discriminate.
    - congruence.
    - destruct (Z.eqb_spec u v) as [->|?]; [|reflexivity]. simpl.
      apply IH; [lia|congruence]. }
  now rewrite E.
Qed.

(** C9, evaluated.  Two accumulators with the same [obspix] pass the check.
    An accumulator over no pixel and an accumulator over the one pixel 7,
    both made by the constructor, have different observed pixels, and
    [coadd] returns without an error: the comparison broadcasts the
    one-cell array against the empty one, and [np.all] of no cell is true. *)
Theorem C9_coadd_check_evaluated (nside2resol : Z -> float) :
  (forall a : option (list Z), obspix_all_eq a a = true) /\
  exists m1 m2,
    OutputSkyMap_init nside2resol "healpix" (Some []) None (Some 16) None = Ok m1 /\
    OutputSkyMap_init nside2resol "healpix" (Some [7]) None (Some 16) None = Ok m2 /\
    obspix m1 <> obspix m2 /\
    coadd InvalidWarn m1 (Another m2) default_to_coadd = (m1, Ok tt).
Proof.
  split; [exact obspix_all_eq_refl|].
  eexists _, _. split; [reflexivity|]. split; [reflexivity|].
  split; [discriminate|]. reflexivity.
Qed.

(** The examples of the docstring of [coadd]: two accumulators over the
    pixels 0 to 3, and two flat ones of four pixels, with hit counts replaced
    by arrays of ones, add up to hit counts of two. *)
Lemma coadd_docstring (nside2resol : Z -> float) :
  (exists m,
     OutputSkyMap_init nside2resol "healpix" (Some [0; 1; 2; 3]) None (Some 16) None
     = Ok m /\
     let m1 := store m "nhit" (NdF [1; 1; 1; 1]%float) in
     nhit (fst (coadd InvalidWarn m1 (Another m1) default_to_coadd))
     = NdF [2; 2; 2; 2]%float) /\
  (exists m,
     OutputSkyMap_init nside2resol "flat" None (Some 4) None (Some 2%float) = Ok m /\
     let m1 := store m "nhit" (NdF [1; 1; 1; 1]%float) in
     nhit (fst (coadd InvalidWarn m1 (Another m1) default_to_coadd))
     = NdF [2; 2; 2; 2]%float).
Proof. split; eexists; (split; [reflexivity|]); vm_compute; reflexivity. Qed.

(** ** The pixel indexer and the sentinel *)








Section Sentinel.
Context `{Libm}.



End Sentinel.

(** The grid coordinates are quotients truncated toward zero: a sample a
    quarter of a pixel below the lower edge of the grid gets row 0, and a
    local index that is not the sentinel. *)
Lemma local_flat_truncates_toward_zero :
  local_flat (-1)%float (-1)%float 0.5%float 5 [(-1.375, 0)%float] = [2].
Proof. vm_compute. reflexivity. Qed.

(** The example of the docstring: with the observed pixels 0, 1200 and
    2592, the global pixels 2592 and 420 get the local indices 2 and -1. *)
Lemma local_healpix_docstring :
  local_healpix [0; 1200; 2592] true [2592; 420] = Ok [2; -1].
Proof. vm_compute. reflexivity. Qed.



(** ** The forward projector and the shared arrays *)

Section SingleWriter.
Context `{Libm} `{Geometry}.
Import PairDiff.

Lemma assign_row_ok {X} (n : nat) (m : list (list X)) (k : nat) vals m' :
  assign_row n m k vals = Ok m' ->
  (k < length m)%nat /\
  exists row, inplace_operand n vals = Ok row /\ m' = <[k := row]> m.
Proof.
  unfold assign_row. destruct (Nat.ltb_spec k (length m)); [|discriminate].
  destruct (inplace_operand n vals) as [row|e]; cbn [mbind result_bind];
    [|discriminate].
  intros [= <-]. eauto.
Qed.

Lemma wrap32_fmap_small (il : list Z) :
  Forall (fun z => - 2 ^ 31 <= z < 2 ^ 31) il -> wrap32 <$> il = il.
Proof.
  induction 1 as [|z il Hz _ IH]; [reflexivity|].
  rewrite fmap_cons, IH, wrap32_small by assumption. reflexivity.
Qed.

(** C7 (as amended).  Whatever the outcome of [map2tod(ch)], an odd channel
    leaves [point_matrix] and [pol_angs] as they were.  When the call for an
    even channel returns, row [ch/2] of [point_matrix] holds the computed
    local indices as stored in int32 cells (the indices themselves when they
    are int32 numbers, one per sample); row [ch/2] of [pol_angs] holds the
    computed angles when the sky has polarisation, and [pol_angs] is as it
    was when it has none. *)
Theorem C7_single_writer (st : seterr_invalid) (self self' : TimeOrderedDataPairDiff)
  (ch : nat) (r : result (list float)) :
  map2tod st self ch = (self', r) ->
  (Nat.even ch = false ->
   point_matrix self' = point_matrix self /\ pol_angs self' = pol_angs self) /\
  (Nat.even ch = true -> forall ts, r = Ok ts ->
   exists ig il pa row,
     map2tod_pointing self ch = Ok (ig, Some il, pa) /\
     (Nat.div2 ch < length (point_matrix self))%nat /\
     inplace_operand (nsamples self) (wrap32 <$> il) = Ok row /\
     point_matrix self' = <[Nat.div2 ch := row]> (point_matrix self) /\
     (length il = nsamples self ->
      Forall (fun z => - 2 ^ 31 <= z < 2 ^ 31) il -> row = il) /\
     (do_pol (sky self) = true ->
      exists ang rowa,
        compute_simpolangle st self ch pa false false = Ok ang /\
        inplace_operand (nsamples self) ang = Ok rowa /\
        pol_angs self' = <[Nat.div2 ch := rowa]> (pol_angs self) /\
        (length ang = nsamples self -> rowa = ang)) /\
     (do_pol (sky self) = false -> pol_angs self' = pol_angs self)).
Proof.
  unfold map2tod.
  destruct (map2tod_pointing self ch) as [[[ig il] pa]|e] eqn:Hp.
  2:{ intros [= <- <-]. split; [auto|]. intros _ ts Hts. discriminate. }
  destruct (Nat.even ch) eqn:Hev.
  - (* even *)
    destruct il as [il|]; [|intros [= <- <-]; split; [discriminate|];
                            intros _ ts Hts; discriminate].
    destruct (assign_row (nsamples self) (point_matrix self) (Nat.div2 ch)
                (wrap32 <$> il)) as [pm|e] eqn:Hpm; cbn [mbind result_bind].
    2:{ intros [= <- <-]. split; [discriminate|]. intros _ ts Hts. discriminate. }
    apply assign_row_ok in Hpm as (Hk & row & Hrow & ->).
    assert (Hexact : length il = nsamples self ->
                     Forall (fun z => - 2 ^ 31 <= z < 2 ^ 31) il -> row = il).
    { intros Hl Hr. rewrite wrap32_fmap_small in Hrow by assumption.
      rewrite inplace_operand_same in Hrow by assumption. congruence. }
    cbn [sky set_point_matrix].
    destruct (do_pol (sky self)) eqn:Hpol.
    + change (compute_simpolangle st (set_point_matrix self _) ch pa false false)
        with (compute_simpolangle st self ch pa false false).
      destruct (compute_simpolangle st self ch pa false false) as [ang|e] eqn:Hang.
      2:{ intros [= <- <-]. split; [discriminate|]. intros _ ts Hts. discriminate. }
      cbn [nsamples pol_angs set_point_matrix].
      destruct (assign_row (nsamples self) (pol_angs self) (Nat.div2 ch) ang)
        as [pa'|e] eqn:Hpa; cbn [mbind result_bind].
      2:{ intros [= <- <-]. split; [discriminate|]. intros _ ts Hts. discriminate. }
      apply assign_row_ok in Hpa as (Hk' & rowa & Hrowa & ->).
      intros [= <- <-]. split; [discriminate|]. intros _ ts Hts.
      exists ig, il, pa, row. repeat split; try assumption; try reflexivity.
      * intros _. exists ang, rowa. repeat split; try assumption.
        intros Hl. rewrite inplace_operand_same in Hrowa by assumption. congruence.
      * discriminate.
    + intros [= <- <-]. split; [discriminate|]. intros _ ts Hts.
      exists ig, il, pa, row. repeat split; try assumption; try reflexivity.
      discriminate.
  - (* odd *)
    destruct (do_pol (sky self)) eqn:Hpol.
    + destruct (compute_simpolangle st self ch pa false false) as [ang|e];
        intros [= <- <-]; (split; [auto|discriminate]).
    + intros [= <- <-]. split; [auto|discriminate].
Qed.

End SingleWriter.

Lemma C7_single_writer_witness :
  exists self' ts row,
    @PairDiff.map2tod taylor_libm grid_geometry InvalidWarn (one_pair true) 0
    = (self', Ok ts) /\
    PairDiff.point_matrix self' = <[0%nat := row]> [[0; 0]] /\ row = [-1; 0].
Proof.
  eexists _, _.
  assert (E : @PairDiff.map2tod taylor_libm grid_geometry InvalidWarn (one_pair true) 0
              = (_, Ok _)) by (vm_compute; reflexivity).
  destruct (@C7_single_writer taylor_libm grid_geometry InvalidWarn _ _ 0 _ E)
    as [_ Heven].
  destruct (Heven eq_refl _ eq_refl)
    as (ig & il & pa & row & Hp & _ & Hrow & Hpm & _).
  exists row. split; [exact E|]. split; [exact Hpm|].
  vm_compute in Hp. injection Hp as <- <- <-.
  vm_compute in Hrow. now injection Hrow as <-.
Defined.

(** C7, as stated, fails: with a sky that has no polarisation the call for
    channel 0 returns and leaves row 0 of [pol_angs] at its zeros, which are
    not the angles of that detector. *)
Lemma C7_counterexample :
  exists self' ts ang,
    Nat.even 0 = true /\
    @PairDiff.map2tod taylor_libm grid_geometry InvalidWarn (one_pair false) 0
    = (self', Ok ts) /\
    PairDiff.compute_simpolangle InvalidWarn (one_pair false) 0
      [0.25; 0.5]%float false false = Ok ang /\
    PairDiff.pol_angs self' = [[0; 0]%float] /\
    ang <> [0; 0]%float.
Proof.
  eexists _, _, _. split; [reflexivity|].
  split; [vm_compute; reflexivity|].
  split; [vm_compute; reflexivity|].
  split; [reflexivity|].
  intros E.
  apply (f_equal (fun l => match l with
                           | x :: _ => PrimFloat.eqb x 0
                           | [] => true
                           end)) in E.
  vm_compute in E. discriminate E.
Qed.

(** ** The pointing-model corrector *)

Section SampleArrays.
Context {S : Type}.

(** Arrays that are all images of one list of samples stay so under the
    ufuncs, with no condition on lengths. *)
Lemma ufunc2_fmap f (g h : S -> float) (l : list S) :
  ufunc2 InvalidWarn f (g <$> l) (h <$> l) = Ok ((fun s => f (g s) (h s)) <$> l).
Proof.
  rewrite ufunc2_warn by (rewrite !length_fmap; reflexivity). f_equal.
  induction l as [|s l IH]; [reflexivity|]. csimpl. f_equal. exact IH.
Qed.

Lemma np_iop_fmap f (g h : S -> float) (l : list S) :
  np_iop InvalidWarn f (g <$> l) (h <$> l) = Ok ((fun s => f (g s) (h s)) <$> l).
Proof.
  unfold np_iop. rewrite inplace_operand_same by (rewrite !length_fmap; reflexivity).
  cbn [mbind result_bind]. apply ufunc2_fmap.
Qed.

Lemma ufunc1_fmap f (g : S -> float) (l : list S) :
  ufunc1 InvalidWarn f (g <$> l) = Ok ((fun s => f (g s)) <$> l).
Proof. unfold ufunc1. rewrite fp_check_warn. now rewrite <- list_fmap_compose. Qed.

Lemma ufunc_sl_fmap f c (g : S -> float) (l : list S) :
  ufunc_sl InvalidWarn f c (g <$> l) = Ok ((fun s => f c (g s)) <$> l).
Proof. unfold ufunc_sl. rewrite fp_check_warn. now rewrite <- list_fmap_compose. Qed.

Lemma ufunc_sr_fmap f c (g : S -> float) (l : list S) :
  ufunc_sr InvalidWarn f (g <$> l) c = Ok ((fun s => f (g s) c) <$> l).
Proof. unfold ufunc_sr. rewrite fp_check_warn. now rewrite <- list_fmap_compose. Qed.

End SampleArrays.

Section Corrector.
Context `{Libm}.
Import Pointing.

(** The array code computes, sample by sample, the scalar model. *)
Lemma apply_pointing_model_samples (self : pointing)
  (S : list (float * float * float)) (tmin : float) :
  az_enc self = (fun s => fst (fst s)) <$> S ->
  el_enc self = (fun s => snd (fst s)) <$> S ->
  time self = (fun s => snd s) <$> S ->
  np_min (time self) = Ok tmin ->
  length (value_params self) = length (split_ws (allowed_params self)) ->
  apply_pointing_model InvalidWarn self
  = Ok ((fun s => az_sample (params self) (lat self) (fst (fst s)) (snd (fst s))) <$> S,
        (fun s => el_sample (params self) (lat self) tmin
                    (fst (fst s)) (snd (fst s)) (snd s)) <$> S).
Proof.
  intros Haz Hel Htm Hmin Hlen.
  unfold apply_pointing_model, azimuth_offset, elevation_offset, az_term,
    scaled_trig, elt_term.
  rewrite Hlen, Nat.eqb_refl. cbn [py_assert mbind result_bind].
  rewrite Hmin. rewrite Haz, Hel, Htm.
  repeat (rewrite ?ufunc2_fmap, ?np_iop_fmap, ?ufunc1_fmap, ?ufunc_sl_fmap,
            ?ufunc_sr_fmap; cbn [mbind result_bind]).
  reflexivity.
Qed.

End Corrector.

Lemma finiteb_not_nan x : F.finiteb x = true -> is_nan x = false.
Proof.
  unfold F.finiteb, is_finite. intros Hx. apply negb_true_iff in Hx.
  now apply orb_false_iff in Hx as [Hx _].
Qed.

Lemma params_zero (self : Pointing.pointing) (name : string) :
  Forall (fun v => F.zerob v = true) (Pointing.value_params self) ->
  F.zerob (Pointing.params self name) = true.
Proof.
  intros Hz. unfold Pointing.params.
  destruct (existsb (String.eqb name) Pointing.known_params); [|reflexivity].
  destruct (index_of name (split_ws (Pointing.allowed_params self))) as [i|];
    [|reflexivity].
  destruct (Pointing.value_params self !! i) as [v|] eqn:Ev; [|reflexivity].
  simpl. eapply Forall_lookup_1 in Hz; eassumption.
Qed.

Create HintDb fzero.
#[local] Hint Resolve zerob_add zerob_sub zerob_mul_l zerob_opp zerob_div : fzero.

Section ZeroModel.
Context `{Libm}.

Lemma zero_model_sample (p : string -> float) (lat tmin a e t : float) :
  (forall name, F.zerob (p name) = true) ->
  benign lat tmin a e t ->
  PrimFloat.eqb (az_sample p lat a e) a = true /\
  PrimFloat.eqb (el_sample p lat tmin a e t) e = true.
Proof.
  intros Hp (Ha & He & Hsa & Hca & Hs2 & Hc2 & Hs4 & Hc4 & Hse & Hce & Hte
             & Htz & Hcz & Hbig & Hcl & Htm).
  assert (Hsec : F.finiteb Pointing.sec2deg = true) by reflexivity.
  assert (Ham : F.finiteb (F.pi / (180 * 60))%float = true) by reflexivity.
  assert (Hdt : F.zerob (p "dt"%string * Pointing.sec2deg)%float = true)
    by auto with fzero.
  split; apply sub_zero_eqb; try (apply finiteb_not_nan; assumption).
  - unfold azd_sample. cbv zeta.
    apply zerob_div; [|assumption|assumption].
    apply zerob_mul_l; [|assumption].
    auto 30 with fzero.
  - unfold eld_sample. cbv zeta.
    apply zerob_mul_l; [|assumption].
    auto 30 with fzero.
Qed.

End ZeroModel.

(** ** The corrector under any error state *)

Lemma bind_sim {A B} (r r' : result A) (k k' : A -> result B) (b : B) :
  (forall a, r = Ok a -> r' = Ok a) ->
  (forall a b, k a = Ok b -> k' a = Ok b) ->
  r ≫= k = Ok b -> r' ≫= k' = Ok b.
Proof.
  intros Hr Hk Hb. apply bind_ok in Hb as (a & Ha & Hb).
  rewrite (Hr a Ha). cbn [mbind result_bind]. now apply Hk.
Qed.

Lemma fp_check_sim {A} (st : seterr_invalid) flags (r a : A) :
  fp_check st flags r = Ok a -> fp_check InvalidWarn flags r = Ok a.
Proof. intros Hr. apply fp_check_ok in Hr. now subst. Qed.

Lemma np_iop_sim (st : seterr_invalid) f a b r :
  np_iop st f a b = Ok r -> np_iop InvalidWarn f a b = Ok r.
Proof.
  unfold np_iop. apply bind_sim; [trivial|]. intros ? ?. apply ufunc2_sim.
Qed.

Ltac sim_leaf H :=
  first [ exact H
        | apply ufunc2_sim in H; exact H
        | apply np_iop_sim in H; exact H
        | apply fp_check_sim in H; exact H ].

(** A goal [r = Ok a -> r' = Ok a], where [r'] is [r] in the default
    state: bind by bind. *)
Ltac sim_go :=
  cbv beta iota;
  lazymatch goal with
  | |- _ ≫= _ = Ok _ -> _ =>
      apply bind_sim; [ intros ?; sim_go | intros ? ?; sim_go ]
  | |- _ -> _ => let H := fresh "H" in intros H; sim_leaf H
  end.

Section CorrectorSim.
Context `{Libm}.
Import Pointing.

Lemma apply_pointing_model_sim (st : seterr_invalid) (self : pointing) r :
  apply_pointing_model st self = Ok r ->
  apply_pointing_model InvalidWarn self = Ok r.
Proof.
  unfold apply_pointing_model, azimuth_offset, elevation_offset, az_term,
    scaled_trig, elt_term, ufunc1, ufunc_sl, ufunc_sr.
  sim_go.
Qed.

End CorrectorSim.

Section Identity.
Context `{Libm}.
Import Pointing.

Lemma samples_of_arrays (az el tm : list float) :
  length el = length az -> length tm = length az ->
  let S := zip (zip az el) tm in
  az = (fun s => fst (fst s)) <$> S /\
  el = (fun s => snd (fst s)) <$> S /\
  tm = (fun s => snd s) <$> S /\
  forall (i : nat) a e t, S !! i = Some (a, e, t) ->
    az !! i = Some a /\ el !! i = Some e /\ tm !! i = Some t.
Proof.
  intros Hel Htm S. repeat split.
  - unfold S. change (fun s : float * float * float => fst (fst s)) with
      (@fst float float ∘ @fst (float * float) float).
    rewrite list_fmap_compose, fst_zip, fst_zip;
      rewrite ?length_zip; try reflexivity; lia.
  - unfold S. change (fun s : float * float * float => snd (fst s)) with
      (@snd float float ∘ @fst (float * float) float).
    rewrite list_fmap_compose, fst_zip, snd_zip;
      rewrite ?length_zip; try reflexivity; lia.
  - unfold S. rewrite snd_zip; rewrite ?length_zip; try reflexivity; lia.
  - unfold S in H0. apply lookup_zip_with_Some in H0 as (p & t' & Ep & Hp & Ht).
    apply lookup_zip_with_Some in Hp as (a' & e' & Ep' & Ha & He). congruence.
  - unfold S in H0. apply lookup_zip_with_Some in H0 as (p & t' & Ep & Hp & Ht).
    apply lookup_zip_with_Some in Hp as (a' & e' & Ep' & Ha & He). congruence.
  - unfold S in H0. apply lookup_zip_with_Some in H0 as (p & t' & Ep & Hp & Ht).
    congruence.
Qed.

(** C5 (as amended).  With arrays of one length, a least time [tmin], and
    every given parameter value zero: when every sample is benign (finite,
    with finite values of the trigonometric functions, a non-zero tangent and
    cosine of the elevation and a finite time since the start),
    [apply_pointing_model] returns under numpy's default error state, and
    under any error state the arrays it returns are equal, as floats, to the
    encoder arrays.  And its result is determined by the attributes it
    reads. *)
Theorem C5_zero_model_identity (self : pointing) (tmin : float) :
  length (el_enc self) = length (az_enc self) ->
  length (time self) = length (az_enc self) ->
  np_min (time self) = Ok tmin ->
  length (value_params self) = length (split_ws (allowed_params self)) ->
  Forall (fun v => F.zerob v = true) (value_params self) ->
  (forall (i : nat) a e t,
     az_enc self !! i = Some a -> el_enc self !! i = Some e ->
     time self !! i = Some t -> benign (lat self) tmin a e t) ->
  (exists az el, apply_pointing_model InvalidWarn self = Ok (az, el)) /\
  (forall st az el,
     apply_pointing_model st self = Ok (az, el) ->
     Forall2 (fun x y => PrimFloat.eqb x y = true) az (az_enc self) /\
     Forall2 (fun x y => PrimFloat.eqb x y = true) el (el_enc self)) /\
  (forall st (other : pointing),
     az_enc other = az_enc self -> el_enc other = el_enc self ->
     time other = time self -> value_params other = value_params self ->
     allowed_params other = allowed_params self -> lat other = lat self ->
     apply_pointing_model st other = apply_pointing_model st self).
Proof.
  intros Hel Htm Hmin Hlen Hzero Hben.
  assert (Hdet : forall st (other : pointing),
     az_enc other = az_enc self -> el_enc other = el_enc self ->
     time other = time self -> value_params other = value_params self ->
     allowed_params other = allowed_params self -> lat other = lat self ->
     apply_pointing_model st other = apply_pointing_model st self).
  { intros st other E1 E2 E3 E4 E5 E6. clear -E1 E2 E3 E4 E5 E6.
    destruct other, self; simpl in *; subst; reflexivity. }
  destruct (samples_of_arrays (az_enc self) (el_enc self) (time self) Hel Htm)
    as (Eaz & Eel & Etm & Hlk).
  set (S := zip (zip (az_enc self) (el_enc self)) (time self)) in *.
  pose proof (apply_pointing_model_samples self S tmin Eaz Eel Etm Hmin Hlen) as Hrun.
  split; [eauto|]. split.
  - intros st az el Hst. apply apply_pointing_model_sim in Hst.
    rewrite Hrun in Hst. injection Hst as Ha He. rewrite <- Ha, <- He. clear Ha He.
    assert (Hall : Forall (fun s =>
               PrimFloat.eqb (az_sample (params self) (lat self) (fst (fst s)) (snd (fst s)))
                 (fst (fst s)) = true /\
               PrimFloat.eqb (el_sample (params self) (lat self) tmin
                                (fst (fst s)) (snd (fst s)) (snd s))
                 (snd (fst s)) = true) S).
    { apply Forall_lookup_2. intros i [[a e] t] Hs.
      destruct (Hlk i a e t Hs) as (Ha & He & Ht). simpl.
      apply zero_model_sample; [|eauto].
      intros name. now apply params_zero. }
    split.
    + rewrite Eaz at 1. apply Forall2_fmap, Forall_Forall2_diag.
      eapply Forall_impl; [exact Hall|]. intros s [Hs _]. exact Hs.
    + rewrite Eel at 1. apply Forall2_fmap, Forall_Forall2_diag.
      eapply Forall_impl; [exact Hall|]. intros s [_ Hs]. exact Hs.
  - exact Hdet.
Qed.

End Identity.

Section NaNFacts.
Local Open Scope float_scope.

Lemma is_nan_sub_r x y : is_nan y = true -> is_nan (x - y) = true.
Proof.
  intros Hy. apply is_nan_SF in Hy. apply is_nan_SF.
  rewrite FloatAxioms.sub_spec, Hy. now destruct (Prim2SF x).
Qed.

Lemma is_nan_add_l x y : is_nan x = true -> is_nan (x + y) = true.
Proof.
  intros Hx. apply is_nan_SF in Hx. apply is_nan_SF.
  rewrite FloatAxioms.add_spec, Hx. reflexivity.
Qed.

Lemma is_nan_mul_l x y : is_nan x = true -> is_nan (x * y) = true.
Proof.
  intros Hx. apply is_nan_SF in Hx. apply is_nan_SF.
  rewrite FloatAxioms.mul_spec, Hx. reflexivity.
Qed.

Lemma is_nan_div_zeros x y :
  F.zerob x = true -> F.zerob y = true -> is_nan (x / y) = true.
Proof.
  intros Hx Hy. apply zerob_SF in Hx as [sx Hx]. apply zerob_SF in Hy as [sy Hy].
  apply is_nan_SF. rewrite FloatAxioms.div_spec, Hx, Hy. reflexivity.
Qed.

Lemma is_nan_eq x : is_nan x = true -> x = nan.
Proof. intros Hx. apply is_nan_SF in Hx. apply Prim2SF_inj. now rewrite Hx. Qed.

End NaNFacts.

Section Horizon.
Context `{Libm}.

(** Where the tangent of the elevation is zero, a zero refraction
    coefficient gives [0/0]: the corrected elevation is NaN, whatever the
    other terms are. *)
Lemma el_sample_horizon (p : string -> float) (lat tmin a e t : float) :
  F.zerob (p "ref"%string) = true -> F.zerob (tan e) = true ->
  el_sample p lat tmin a e t = nan.
Proof.
  intros Hr Ht. apply is_nan_eq. unfold el_sample, eld_sample. cbv zeta.
  apply is_nan_sub_r, is_nan_mul_l, is_nan_add_l, is_nan_add_l, is_nan_sub_r.
  now apply is_nan_div_zeros.
Qed.

End Horizon.

Lemma C5_zero_model_identity_witness :
  exists az el,
    @Pointing.apply_pointing_model taylor_libm InvalidWarn scan_above = Ok (az, el) /\
    Forall2 (fun x y => PrimFloat.eqb x y = true) az [0.125; 0.25]%float /\
    Forall2 (fun x y => PrimFloat.eqb x y = true) el [0.5; 0.75]%float.
Proof.
  destruct (@C5_zero_model_identity taylor_libm scan_above 56293%float)
    as ((az & el & Hrun) & Hid & _).
  - reflexivity.
  - reflexivity.
  - reflexivity.
  - reflexivity.
  - constructor.
  - intros [|[|i]] a e t; simpl; intros [= <-] [= <-] [= <-];
      repeat split; vm_compute; reflexivity.
  - exists az, el. split; [exact Hrun|]. exact (Hid InvalidWarn az el Hrun).
Defined.

(** C5, as stated, fails: with no parameter given, a sample on the horizon
    comes back with a NaN elevation. *)
Lemma C5_counterexample :
  @tan taylor_libm 0%float = 0%float /\
  @Pointing.apply_pointing_model taylor_libm InvalidWarn scan_horizon
  = Ok ([0.125; 0.25]%float, [0.5; nan]%float) /\
  PrimFloat.eqb nan 0 = false.
Proof. repeat split; vm_compute; reflexivity. Qed.

(** ** The time-linear term *)





